(** * deb_pkg_tools.utils: the [atomic_lock] context manager

    A shallow embedding of [deb_pkg_tools/utils.py] (functions [sha1],
    [makedirs], class [atomic_lock] and [ResourceLockedException]) together
    with the part of the Python standard library that these functions call
    ([hashlib.sha1], [os.path.join], [os.path.realpath], [os.makedirs],
    [os.path.isdir], [os.rmdir], [time.sleep]).

    Python [str] values are represented by Rocq strings holding their UTF-8
    bytes, so [text.encode('utf-8')] is the list of bytes of the string. *)

From Stdlib Require Import NArith Ascii String List Lia.
From stdpp Require Import base option list gmap strings.
Import ListNotations.

Local Open Scope string_scope.

(* ===================================================================== *)
(** ** hashlib.sha1 (FIPS 180-4), on 32-bit words kept in [N]            *)
(* ===================================================================== *)

Module hashlib.

Local Open Scope N_scope.

Definition mask32 : N := 4294967295.

(** Addition of 32-bit words wraps around. *)
Definition add32 (a b : N) : N := (a + b) mod 4294967296.

Definition not32 (a : N) : N := N.lxor a mask32.

Definition rotl32 (n : N) (x : N) : N :=
  N.land (N.lor (N.shiftl x n) (N.shiftr x (32 - n))) mask32.

(** Message padding: a single 1 bit, zeros up to 56 mod 64 bytes, then
    the message length in bits as a 64-bit big-endian integer. *)
Definition be_bytes (count : nat) (x : N) : list N :=
  map (fun i => N.land (N.shiftr x (8 * N.of_nat i)) 255) (rev (seq 0 count)).

Definition pad (msg : list N) : list N :=
  let len := N.of_nat (length msg) in
  let zeros := N.to_nat ((119 - len mod 64) mod 64) in
  msg ++ [128] ++ repeat 0 zeros ++ be_bytes 8 (8 * len).

Definition word_of_bytes (bs : list N) : N :=
  fold_left (fun acc b => acc * 256 + b) bs 0.

Fixpoint words_of_bytes (count : nat) (bs : list N) : list N :=
  match count with
  | O => []
  | S count' => word_of_bytes (firstn 4 bs) :: words_of_bytes count' (skipn 4 bs)
  end.

(** The message schedule, most recent word first: [ws] holds
    W(t-1), W(t-2), ...; the next word is
    ROTL1 (W(t-3) xor W(t-8) xor W(t-14) xor W(t-16)). *)
Fixpoint extend (count : nat) (ws : list N) : list N :=
  match count with
  | O => ws
  | S count' =>
      let w := rotl32 1 (N.lxor (N.lxor (nth 2 ws 0) (nth 7 ws 0))
                                (N.lxor (nth 13 ws 0) (nth 15 ws 0))) in
      extend count' (w :: ws)
  end.

Definition schedule (block : list N) : list N :=
  rev (extend 64 (rev (words_of_bytes 16 block))).

Definition f (t : nat) (b c d : N) : N :=
  if (t <? 20)%nat then N.lor (N.land b c) (N.land (not32 b) d)
  else if (t <? 40)%nat then N.lxor b (N.lxor c d)
  else if (t <? 60)%nat then
    N.lor (N.lor (N.land b c) (N.land b d)) (N.land c d)
  else N.lxor b (N.lxor c d).

Definition K (t : nat) : N :=
  if (t <? 20)%nat then 1518500249
  else if (t <? 40)%nat then 1859775393
  else if (t <? 60)%nat then 2400959708
  else 3395469782.

Record regs := Regs { ra : N; rb : N; rc : N; rd : N; re : N }.

Definition round (r : regs) (tw : nat * N) : regs :=
  let (t, w) := tw in
  let temp :=
    add32 (add32 (add32 (add32 (rotl32 5 (ra r)) (f t (rb r) (rc r) (rd r)))
                        (re r)) (K t)) w in
  Regs temp (ra r) (rotl32 30 (rb r)) (rc r) (rd r).

Definition compress (h : regs) (block : list N) : regs :=
  let ws := schedule block in
  let r := fold_left round (combine (seq 0 80) ws) h in
  Regs (add32 (ra h) (ra r)) (add32 (rb h) (rb r)) (add32 (rc h) (rc r))
       (add32 (rd h) (rd r)) (add32 (re h) (re r)).

Fixpoint blocks (count : nat) (h : regs) (bs : list N) : regs :=
  match count with
  | O => h
  | S count' => blocks count' (compress h (firstn 64 bs)) (skipn 64 bs)
  end.

Definition initial : regs :=
  Regs 1732584193 4023233417 2562383102 271733878 3285377520.

Definition digest_words (msg : list N) : list N :=
  let padded := pad msg in
  let r := blocks (Nat.div (length padded) 64) initial padded in
  [ra r; rb r; rc r; rd r; re r].

(** [hexdigest]: every word printed as eight lower-case hex digits. *)
Definition hexdigit (n : N) : ascii :=
  nth (N.to_nat n)
      (list_ascii_of_string "0123456789abcdef") "0"%char.

Definition hex32 (w : N) : list ascii :=
  map (fun i => hexdigit (N.land (N.shiftr w (4 * N.of_nat i)) 15))
      (rev (seq 0 8)).

Definition sha1_hexdigest (msg : list N) : string :=
  string_of_list_ascii (concat (map hex32 (digest_words msg))).

End hashlib.

(** [str.encode('utf-8')]: the bytes of the text. *)
Definition encode_utf8 (text : string) : list N :=
  map N_of_ascii (list_ascii_of_string text).

(** [sha1(text)]: the SHA1 fingerprint of text, as a hexadecimal string. *)
Definition sha1 (text : string) : string :=
  hashlib.sha1_hexdigest (encode_utf8 text).


(* ===================================================================== *)
(** ** The environment: errors, filesystem, clock and other processes    *)
(* ===================================================================== *)

(** Reasons for which the kernel refuses to create a directory at a path
    where nothing exists yet, or to remove one. *)
Inductive cause :=
  EPERM | ENOENT | EIO | EACCES | ENOTDIR | ENOSPC | EROFS | ENAMETOOLONG | ELOOP.

(** The [errno] of an [OSError]. [EEXIST] is kept apart from the other
    causes: it is the only one the code tests for. *)
Inductive errno := EEXIST | Errno (c : cause).

Definition errno_eqb (a b : errno) : bool :=
  match a, b with
  | EEXIST, EEXIST => true
  | Errno c1, Errno c2 =>
      match c1, c2 with
      | EPERM, EPERM | ENOENT, ENOENT | EIO, EIO | EACCES, EACCES
      | ENOTDIR, ENOTDIR | ENOSPC, ENOSPC | EROFS, EROFS
      | ENAMETOOLONG, ENAMETOOLONG | ELOOP, ELOOP => true
      | _, _ => false
      end
  | _, _ => false
  end.

(** The exceptions that occur in this module. [ResourceLockedException] is
    the class defined at the end of [utils.py]; it carries its message.
    [ValueError] is what [os.path.realpath] raises for a path with an
    embedded null character, [UnicodeEncodeError] what [str.encode] raises
    for a text with a surrogate in it. *)
Inductive exn :=
| OSError (e : errno)
| ResourceLockedException (msg : string)
| ValueError
| UnicodeEncodeError.

(** The outcome of a Python call: a returned value or a raised exception. *)
Inductive result (A : Type) :=
| Return (a : A)
| Raise (e : exn).
Arguments Return {A} a.
Arguments Raise {A} e.

(** What a path names on disk: a plain file, a directory, or a symbolic
    link, of which it is recorded whether it leads to a directory. *)
Inductive node := File | Dir | Link (to_directory : bool).

(** What other processes may do to the filesystem while this one sleeps. *)
Inductive action :=
| OtherMkdir (p : string)
| OtherRmdir (p : string)
| OtherCreate (p : string)
| OtherUnlink (p : string).

(** What the process does that is visible from outside, in order. *)
Inductive event :=
| EvMakedirs (directory : string) (created : result unit)
| EvRmdir (directory : string) (removed : result unit)
| EvSpinner (pathname : string) (elapsed : N)
| EvSleep (milliseconds : N).

(** The state of the world, as seen by one process.
    - [fs]: what exists at each path;
    - [faults]: for paths where nothing exists, why a directory cannot be
      created there (permissions, read-only filesystem, I/O errors ...);
    - [cwd], [tmpdir]: the working directory and [tempfile.gettempdir()];
    - [clock]: the time in milliseconds;
    - [others]: what the other processes do during each coming sleep of
      this process;
    - [trace]: the calls made so far, oldest first. *)
Record world := World {
  fs : gmap string node;
  faults : gmap string cause;
  cwd : string;
  tmpdir : string;
  clock : N;
  others : list (list action);
  trace : list event
}.

Definition set_fs (m : gmap string node) (w : world) : world :=
  World m (faults w) (cwd w) (tmpdir w) (clock w) (others w) (trace w).

Definition log (ev : event) (w : world) : world :=
  World (fs w) (faults w) (cwd w) (tmpdir w) (clock w) (others w)
        (trace w ++ [ev]).

Definition perform (m : gmap string node) (a : action) : gmap string node :=
  match a with
  | OtherMkdir p => match m !! p with None => <[p := Dir]> m | Some _ => m end
  | OtherRmdir p => match m !! p with Some Dir => delete p m | _ => m end
  | OtherCreate p => match m !! p with None => <[p := File]> m | Some _ => m end
  | OtherUnlink p => match m !! p with Some File => delete p m | _ => m end
  end.

(* ===================================================================== *)
(** ** The standard-library calls made by the module                     *)
(* ===================================================================== *)

Module os.

(** [os.makedirs(directory)], for a directory whose parent exists, as the
    lock directory in the temporary directory: raises [OSError] with
    [EEXIST] when the path exists already (as a directory or as anything
    else); otherwise the directory is created, unless the kernel refuses.
    The creation is one atomic step on the filesystem. Paths are names
    without structure here: the creation of missing parents, the empty
    path and paths that end with a separator are not modelled. *)
Definition makedirs (directory : string) (w : world) : result unit * world :=
  match fs w !! directory with
  | Some _ =>
      let r := Raise (OSError EEXIST) in (r, log (EvMakedirs directory r) w)
  | None =>
      match faults w !! directory with
      | Some c =>
          let r := Raise (OSError (Errno c)) in
          (r, log (EvMakedirs directory r) w)
      | None =>
          (Return tt,
           log (EvMakedirs directory (Return tt))
               (set_fs (<[directory := Dir]> (fs w)) w))
      end
  end.

(** [os.rmdir(directory)]: removes a directory; fails on a file, on a
    symbolic link (also on one that leads to a directory) and on a path
    where nothing exists. Directories have no content in this model (the
    module never puts anything into the one it creates). *)
Definition rmdir (directory : string) (w : world) : result unit * world :=
  match fs w !! directory with
  | Some Dir =>
      (Return tt,
       log (EvRmdir directory (Return tt))
           (set_fs (delete directory (fs w)) w))
  | Some File | Some (Link _) =>
      let r := Raise (OSError (Errno ENOTDIR)) in
      (r, log (EvRmdir directory r) w)
  | None =>
      let r := Raise (OSError (Errno ENOENT)) in
      (r, log (EvRmdir directory r) w)
  end.

Module path.

Definition sep : ascii := "/"%char.

Definition isabs (s : string) : bool :=
  match s with
  | String c _ => Ascii.eqb c sep
  | EmptyString => false
  end.

Fixpoint endswith_sep (s : string) : bool :=
  match s with
  | EmptyString => false
  | String c EmptyString => Ascii.eqb c sep
  | String _ rest => endswith_sep rest
  end.

(** [os.path.join(a, b)] of [posixpath], for two arguments. *)
Definition join (a b : string) : string :=
  if isabs b then b
  else if String.eqb a "" || endswith_sep a then a ++ b
  else a ++ "/" ++ b.

(** [os.path.isdir(p)]: whether [p] names an existing directory;
    symbolic links are followed. *)
Definition isdir (p : string) (w : world) : bool :=
  match fs w !! p with
  | Some Dir => true
  | Some (Link to_directory) => to_directory
  | _ => false
  end.

(** [s.split('/')]. *)
Fixpoint split_sep (cur : string) (s : string) : list string :=
  match s with
  | EmptyString => [cur]
  | String c rest =>
      if Ascii.eqb c sep then cur :: split_sep "" rest
      else split_sep (cur ++ String c "") rest
  end.

(** One step of the walk along the components of a path; [stack] holds the
    components kept so far, innermost first. Empty components and [.] are
    dropped, [..] removes the last component and stays at the root. *)
Definition walk (stack : list string) (name : string) : list string :=
  if String.eqb name "" || String.eqb name "." then stack
  else if String.eqb name ".." then tail stack
  else name :: stack.

(** [os.path.realpath(p)] for a path none of whose components is a
    symbolic link: the path is made absolute with the working directory
    and normalised, whether it exists or not. The one path without a
    result is a path with a null character, see [embedded_null]. *)
Definition realpath (p : string) (w : world) : string :=
  let full := if isabs p then p else join (cwd w) p in
  "/" ++ String.concat "/" (rev (fold_left walk (split_sep "" full) [])).

(** The path that [os.path.realpath] walks along. *)
Definition walked (p : string) (w : world) : string :=
  if isabs p then p else join (cwd w) p.

(** Whether that path holds a null character: no system call takes such
    a path, and [os.path.realpath] raises [ValueError]. *)
Definition embedded_null (p : string) (w : world) : bool :=
  existsb (Ascii.eqb "000"%char) (list_ascii_of_string (walked p w)).

End path.

End os.

(** Whether a text holds a surrogate: in the bytes that stand for the
    text, a surrogate shows as the byte 237 followed by a byte from 160 to
    191. File names with bytes that are no UTF-8 are decoded to such
    texts, and [text.encode('utf-8')] raises [UnicodeEncodeError] for
    them. *)
Fixpoint surrogate (text : string) : bool :=
  match text with
  | String c (String d _ as rest) =>
      (N.eqb (N_of_ascii c) 237 && N.leb 160 (N_of_ascii d)
       && N.leb (N_of_ascii d) 191)
      || surrogate rest
  | _ => false
  end.

Module tempfile.

(** [tempfile.gettempdir()]. *)
Definition gettempdir (w : world) : string := tmpdir w.

End tempfile.

Module time.

(** [time.sleep(seconds)], with the duration in milliseconds: the clock
    advances, and the other processes do what they do in the meantime. *)
Definition sleep (milliseconds : N) (w : world) : world :=
  World (fold_left perform (hd [] (others w)) (fs w)) (faults w) (cwd w)
        (tmpdir w) (clock w + milliseconds) (tl (others w))
        (trace w ++ [EvSleep milliseconds]).

End time.

(** [spinner.step(label=...)] of [humanfriendly]: the label is rendered from
    the pathname and the timer, that is, the time elapsed since [started]. *)
Definition spinner_step (pathname : string) (started : N) (w : world) : world :=
  log (EvSpinner pathname (clock w - started)) w.

(* ===================================================================== *)
(** ** deb_pkg_tools.utils                                               *)
(* ===================================================================== *)

(** [makedirs(directory)]: [True] if the directory was created, [False] if
    it already exists; every other [OSError] is raised again. *)
Definition makedirs (directory : string) (w : world) : result bool * world :=
  match os.makedirs directory w with
  | (Return _, w') => (Return true, w')
  | (Raise (OSError e), w') =>
      if errno_eqb e EEXIST then (Return false, w')
      else (Raise (OSError e), w')
  | (Raise e, w') => (Raise e, w')
  end.

(** The attributes of an [atomic_lock] object. *)
Record atomic_lock := {
  wait : bool;
  pathname : string;
  lock_directory : string
}.

(** [atomic_lock.__init__(self, pathname, wait=True)]. The exceptions of
    [os.path.realpath] and of the [encode] in [sha1] are not caught. *)
Definition __init__ (pathname0 : string) (wait0 : bool) (w : world)
  : result atomic_lock :=
  if os.path.embedded_null pathname0 w then Raise ValueError
  else
    let pathname1 := os.path.realpath pathname0 w in
    if surrogate pathname1 then Raise UnicodeEncodeError
    else
      Return {| wait := wait0;
                pathname := pathname1;
                lock_directory :=
                  os.path.join (tempfile.gettempdir w)
                               (sha1 pathname1 ++ ".lock") |}.

(** ["Failed to lock %s for exclusive access!" % self.pathname]. *)
Definition locked_message (pathname0 : string) : string :=
  "Failed to lock " ++ pathname0 ++ " for exclusive access!".

(** The [while True] loop of [__enter__]. Each unit of [fuel] pays for one
    iteration; [None] means that the loop is still running when the fuel is
    spent. [started] is the time at which the [Timer] was created. *)
Fixpoint while_True (fuel : nat) (self : atomic_lock) (started : N) (w : world)
  : option (result unit * world) :=
  match fuel with
  | O => None
  | S fuel' =>
      match makedirs (lock_directory self) w with
      | (Raise e, w1) => Some (Raise e, w1)
      | (Return true, w1) => Some (Return tt, w1)
      | (Return false, w1) =>
          if wait self then
            let w2 := spinner_step (pathname self) started w1 in
            let w3 := time.sleep 100 w2 in
            while_True fuel' self started w3
          else
            Some (Raise (ResourceLockedException
                           (locked_message (pathname self))), w1)
      end
  end.

(** [atomic_lock.__enter__(self)]. *)
Definition __enter__ (fuel : nat) (self : atomic_lock) (w : world)
  : option (result unit * world) :=
  while_True fuel self (clock w) w.

(** [atomic_lock.__exit__(self, ...)]. *)
Definition __exit__ (self : atomic_lock) (w : world) : result unit * world :=
  if os.path.isdir (lock_directory self) w
  then os.rmdir (lock_directory self) w
  else (Return tt, w).

(** The [with atomic_lock(...)] statement around a block that changes the
    world and does not raise: [__enter__], the block, [__exit__]. When
    [__enter__] raises, neither the block nor [__exit__] runs. *)
Definition with_atomic_lock (fuel : nat) (self : atomic_lock)
    (block : world -> world) (w : world) : option (result unit * world) :=
  match __enter__ fuel self w with
  | None => None
  | Some (Raise e, w1) => Some (Raise e, w1)
  | Some (Return _, w1) => Some (__exit__ self (block w1))
  end.

(** Several processes call [__enter__] at the same time. The only step of a
    call that touches what the processes share is [os.makedirs], which the
    filesystem performs atomically, one call after the other; the list
    gives the order in which the calls of the processes take that step.
    There is no result when the loop of some call is still running after
    [fuel] iterations. *)
Fixpoint enter_each (fuel : nat) (selves : list atomic_lock) (w : world)
  : option (list (result unit) * world) :=
  match selves with
  | [] => Some ([], w)
  | self :: rest =>
      match __enter__ fuel self w with
      | None => None
      | Some (r, w1) =>
          match enter_each fuel rest w1 with
          | None => None
          | Some (rs, w2) => Some (r :: rs, w2)
          end
      end
  end.

Definition succeeded (r : result unit) : bool :=
  match r with
  | Return _ => true
  | Raise _ => false
  end.

(** The exception that reports contention on the lock of [self]. *)
Definition contention (self : atomic_lock) : result unit :=
  Raise (ResourceLockedException (locked_message (pathname self))).

(** The events of [k] rounds of waiting for a lock: a refused creation, a
    step of the spinner, and a sleep of 100 milliseconds. *)
Fixpoint waiting (directory pathname0 : string) (elapsed : N) (k : nat)
  : list event :=
  match k with
  | O => []
  | S k' =>
      EvMakedirs directory (Raise (OSError EEXIST))
        :: EvSpinner pathname0 elapsed
        :: EvSleep 100
        :: waiting directory pathname0 (elapsed + 100) k'
  end.

(** An action of another process that leaves the path [p] alone. *)
Definition spares (p : string) (a : action) : Prop :=
  match a with
  | OtherMkdir q | OtherRmdir q | OtherCreate q | OtherUnlink q => q <> p
  end.

(* ===================================================================== *)
(** ** Notions used in the statements, and the worlds of the examples    *)
(* ===================================================================== *)

(** A machine with a temporary directory and a package repository. *)
Definition machine : world :=
  World (<["/tmp" := Dir]> (<["/data/repo" := Dir]> ∅)) ∅
        "/home/user" "/tmp" 0 [] [].

Definition repo_marker : string :=
  "/tmp/6877d6a4e60b6e8c0b91c42b2e82c0d69d03bd4a.lock".

Definition repo_lock (wait0 : bool) : atomic_lock :=
  {| wait := wait0; pathname := "/data/repo"; lock_directory := repo_marker |}.

(** The other processes leave [p] alone during all the coming sleeps. *)
Definition undisturbed (p : string) (w : world) : Prop :=
  Forall (Forall (spares p)) (others w).

(** One round of waiting: what the world is after a refused creation, the
    step of the spinner and the sleep. *)
Definition after_round (self : atomic_lock) (started : N) (w : world) : world :=
  time.sleep 100
    (spinner_step (pathname self) started
       (log (EvMakedirs (lock_directory self) (Raise (OSError EEXIST))) w)).

(** The world once the first handle on the repository holds its lock. *)
Definition machine_locked : world :=
  set_fs (<[repo_marker := Dir]> (fs machine)) machine.

(** The repository machine with a temporary directory that became
    read-only. *)
Definition machine_readonly : world :=
  World (fs machine) {[ repo_marker := EROFS ]} "/home/user" "/tmp" 0 [] [].

(** The world after [k] rounds of waiting. *)
Fixpoint rounds (k : nat) (self : atomic_lock) (started : N) (w : world) : world :=
  match k with
  | O => w
  | S k' => rounds k' self started (after_round self started w)
  end.

(** The world in which [os.makedirs] has just created the marker. *)
Definition created (self : atomic_lock) (v : world) : world :=
  log (EvMakedirs (lock_directory self) (Return tt))
      (set_fs (<[lock_directory self := Dir]> (fs v)) v).

(** The holder of the repository lock releases it during the third sleep
    of a process that waits for it. *)
Definition machine_released_later : world :=
  World (fs machine_locked) ∅ "/home/user" "/tmp" 0
        [[]; []; [OtherRmdir repo_marker]] [].

(** Somebody left a plain file where the marker of the repository goes. *)
Definition machine_stray_file : world :=
  set_fs (<[repo_marker := File]> (fs machine)) machine.

(** [os.path.join] with a relative second part: the first part, a
    separator unless it is empty or ends with one, and the second part. *)
Definition joint (a : string) : string :=
  if String.eqb a "" || os.path.endswith_sep a then "" else "/".

(** The same machine at a later time, seen by a process that works in the
    repository. *)
Definition machine_elsewhere : world :=
  World (fs machine_locked) ∅ "/data/repo" "/tmp" 5000 [] [].



(* ===================================================================== *)
(** ** The lock in use: the [with] statement and processes side by side  *)
(* ===================================================================== *)

(** The [with atomic_lock(...)] statement around a block that may raise.
    [__exit__] has no [return], so it answers [None] and an exception of
    the block is raised again once the lock is released; an exception of
    [__exit__] itself takes the place of the outcome of the block. *)
Definition with_statement {A : Type} (fuel : nat) (self : atomic_lock)
    (block : world -> result A * world) (w : world)
  : option (result A * world) :=
  match __enter__ fuel self w with
  | None => None
  | Some (Raise e, w1) => Some (Raise e, w1)
  | Some (Return _, w1) =>
      let (r, w2) := block w1 in
      match __exit__ self w2 with
      | (Raise e, w3) => Some (Raise e, w3)
      | (Return _, w3) => Some (r, w3)
      end
  end.

(** How one passage through the body of the loop of [__enter__] ends. *)
Inductive passage :=
| Entered
| Refused (e : exn)
| Again.

(** The body of the [while True] loop of [__enter__], once. *)
Definition iteration (self : atomic_lock) (started : N) (w : world)
  : passage * world :=
  match makedirs (lock_directory self) w with
  | (Raise e, w1) => (Refused e, w1)
  | (Return true, w1) => (Entered, w1)
  | (Return false, w1) =>
      if wait self then
        (Again, time.sleep 100 (spinner_step (pathname self) started w1))
      else
        (Refused (ResourceLockedException (locked_message (pathname self))),
         w1)
  end.

(** Where a process that runs [with atomic_lock(...): block] is: in the
    loop of [__enter__], inside the block, past [__exit__], or stopped by
    an exception. *)
Inductive stage :=
| Entering (started : N)
| Inside
| Left
| Failed (e : exn).

Record process := Process {
  handle : atomic_lock;
  stage_of : stage
}.

(** One step of a process: a passage through the loop of [__enter__], or
    the block followed by [__exit__]. *)
Definition step_process (block : world -> world) (p : process) (w : world)
  : process * world :=
  match stage_of p with
  | Entering started =>
      match iteration (handle p) started w with
      | (Entered, w1) => (Process (handle p) Inside, w1)
      | (Refused e, w1) => (Process (handle p) (Failed e), w1)
      | (Again, w1) => (p, w1)
      end
  | Inside =>
      match __exit__ (handle p) (block w) with
      | (Return _, w1) => (Process (handle p) Left, w1)
      | (Raise e, w1) => (Process (handle p) (Failed e), w1)
      end
  | Left | Failed _ => (p, w)
  end.

(** The processes and the world they share; process number [i] takes a
    step. *)
Definition step (block : world -> world) (st : list process * world) (i : nat)
  : list process * world :=
  match fst st !! i with
  | None => st
  | Some p =>
      let (p', w') := step_process block p (snd st) in
      (<[i := p']> (fst st), w')
  end.

(** The processes take steps in the order of the schedule. *)
Definition run (block : world -> world) (schedule : list nat)
    (st : list process * world) : list process * world :=
  fold_left (step block) schedule st.

Definition is_inside (p : process) : bool :=
  match stage_of p with
  | Inside => true
  | _ => false
  end.

(** How many processes are inside their block. *)
Definition inside_count (ps : list process) : nat :=
  length (filter (fun p => is_inside p = true) ps).

(** A block that leaves the marker path alone and does not change what
    the other processes are going to do. *)
Definition keeps_marker (d : string) (block : world -> world) : Prop :=
  forall v, fs (block v) !! d = fs v !! d /\ others (block v) = others v.

(** A block that fails with an I/O error after it has done some work. *)
Definition failing_block (v : world) : result nat * world :=
  (Raise (OSError (Errno EIO)),
   set_fs (<["/data/repo/Packages" := File]> (fs v)) v).

(** Three processes about to lock the repository: two that wait and one
    that does not. *)
Definition pool : list process :=
  [Process (repo_lock true) (Entering 0);
   Process (repo_lock true) (Entering 0);
   Process (repo_lock false) (Entering 0)].

(** A lower-case hexadecimal digit. *)
Definition is_hex (c : ascii) : bool :=
  existsb (Ascii.eqb c) (list_ascii_of_string "0123456789abcdef").

(** A string without a path separator. *)
Definition sep_free (s : string) : Prop :=
  Forall (fun c => c <> os.path.sep) (list_ascii_of_string s).

(** A name that [os.path.realpath] keeps as a component of its result. *)
Definition component (s : string) : Prop :=
  sep_free s /\ s <> "" /\ s <> "." /\ s <> "..".

(* ===================================================================== *)
(** ** OrderedObject                                                     *)
(* ===================================================================== *)

(** What a method of [OrderedObject] comes to: a value, the
    [NotImplementedError] that [OrderedObject._key] raises when a class
    does not define [_key], or the [TypeError] that [hash] raises for a key
    that cannot be hashed. *)
Inductive outcome (A : Type) :=
| Value (a : A)
| NotImplementedError
| TypeError.
Arguments Value {A} a.
Arguments NotImplementedError {A}.
Arguments TypeError {A}.

Module OrderedObject.

Section Methods.

(** Python objects and the keys that [_key] returns. *)
Context {object K : Type}.

(** [type(x)], as the name of the class. *)
Variable type : object -> string.

(** [isinstance(x, OrderedObject)]. *)
Variable isinstance : object -> bool.

(** [x._key()], as the class of [x] defines it. *)
Variable _key : object -> outcome K.

(** [a == b] and [a < b] on keys, as the type of the keys defines them:
    nothing makes [==] reflexive, and it is not for a key such as
    [float('nan')]. *)
Variable key_eq : K -> K -> bool.
Variable key_lt : K -> K -> bool.

(** [hash(cls)], and [hash(key)], which raises [TypeError] ([None] here)
    for a key such as a list. *)
Variable hash_type : string -> Z.
Variable hash_key : K -> option Z.

(** [OrderedObject.__eq__(self, other)]:
    [type(self) is type(other) and self._key() == other._key()]. *)
Definition __eq__ (self other : object) : outcome bool :=
  if String.eqb (type self) (type other) then
    match _key self with
    | NotImplementedError => NotImplementedError
    | TypeError => TypeError
    | Value a =>
        match _key other with
        | NotImplementedError => NotImplementedError
        | TypeError => TypeError
        | Value b => Value (key_eq a b)
        end
    end
  else Value false.

(** [OrderedObject.__lt__(self, other)]:
    [isinstance(other, OrderedObject) and self._key() < other._key()]. *)
Definition __lt__ (self other : object) : outcome bool :=
  if isinstance other then
    match _key self with
    | NotImplementedError => NotImplementedError
    | TypeError => TypeError
    | Value a =>
        match _key other with
        | NotImplementedError => NotImplementedError
        | TypeError => TypeError
        | Value b => Value (key_lt a b)
        end
    end
  else Value false.

(** [OrderedObject.__hash__(self)]:
    [hash(self.__class__) ^ hash(self._key())]. *)
Definition __hash__ (self : object) : outcome Z :=
  match _key self with
  | NotImplementedError => NotImplementedError
  | TypeError => TypeError
  | Value a =>
      match hash_key a with
      | Some h => Value (Z.lxor (hash_type (type self)) h)
      | None => TypeError
      end
  end.

End Methods.

End OrderedObject.

(** Versions of packages as objects for the examples: the name of a class
    and a key; every class here defines [_key] as the key, except
    [OrderedObject] itself. Objects of class [int] are no instances of
    [OrderedObject]. *)
Definition example_type {K : Type} (x : string * K) : string := fst x.

Definition example_isinstance {K : Type} (x : string * K) : bool :=
  negb (String.eqb (fst x) "int").

Definition example_key {K : Type} (x : string * K) : outcome K :=
  if String.eqb (fst x) "OrderedObject" then NotImplementedError
  else Value (snd x).

(** Keys for the examples: an integer, [float('nan')], or a list of
    integers. [nan] equals nothing, itself included, and is below nothing;
    a list cannot be hashed. *)
Inductive example_value :=
| Int (n : Z)
| NaN
| PyList (l : list Z).

Definition example_eq (a b : example_value) : bool :=
  match a, b with
  | Int m, Int n => Z.eqb m n
  | PyList l, PyList l' => bool_decide (l = l')
  | _, _ => false
  end.

Definition example_hash (a : example_value) : option Z :=
  match a with
  | Int n => Some n
  | NaN => Some 0%Z
  | PyList _ => None
  end.

(* ===================================================================== *)
(** ** optimize_order                                                    *)
(* ===================================================================== *)

Module random.

(** [x[i], x[j] = x[j], x[i]]; [None] stands for an [IndexError]. *)
Definition swap {A : Type} (i j : nat) (x : list A) : option (list A) :=
  match x !! j, x !! i with
  | Some xj, Some xi => Some (<[j := xi]> (<[i := xj]> x))
  | _, _ => None
  end.

(** The loop of [random.shuffle(x)], [for i in reversed(range(1, len(x)))],
    from the index [i] down to 1: at each index a random [j] with
    [0 <= j <= i] is drawn and [x[i]] and [x[j]] change places. [draw i] is
    the number that the generator yields at index [i]. *)
Fixpoint shuffle_from {A : Type} (draw : nat -> nat) (i : nat) (x : list A)
  : option (list A) :=
  match i with
  | O => Some x
  | S i' =>
      match swap i (draw i mod S i) x with
      | None => None
      | Some x' => shuffle_from draw i' x'
      end
  end.

(** [random.shuffle(x)]. *)
Definition shuffle {A : Type} (draw : nat -> nat) (x : list A)
  : option (list A) :=
  shuffle_from draw (length x - 1) x.

End random.

(** [optimize_order(package_archives)]: the list is shuffled and
    returned. *)
Definition optimize_order {A : Type} (draw : nat -> nat)
    (package_archives : list A) : option (list A) :=
  random.shuffle draw package_archives.

(* ===================================================================== *)
(** ** compact                                                           *)
(* ===================================================================== *)

Module str.

(** [text.split()]: the words of the text, that is, its longest runs of
    characters that are not whitespace; [isspace] says which characters
    are whitespace, and [cur] is the word read so far. *)
Fixpoint split (isspace : ascii -> bool) (cur text : string) : list string :=
  match text with
  | EmptyString => if String.eqb cur "" then [] else [cur]
  | String c rest =>
      if isspace c then
        if String.eqb cur "" then split isspace "" rest
        else cur :: split isspace "" rest
      else split isspace (cur ++ String c "") rest
  end.

(** [sep.join(words)]. *)
Definition join (sep : string) (words : list string) : string :=
  String.concat sep words.

End str.

(** [compact(text, **kw)]: the text [' '.join(text.split())], to which
    [str.format] is applied with the keyword arguments; [format] stands
    for that method, as it comes. *)
Definition compact {KW F : Type} (isspace : ascii -> bool)
    (format : string -> KW -> F) (text : string) (kw : KW) : F :=
  format (str.join " " (str.split isspace "" text)) kw.

(** A string without whitespace, and a word: such a string that is not
    empty. *)
Definition space_free (isspace : ascii -> bool) (s : string) : Prop :=
  Forall (fun c => isspace c = false) (list_ascii_of_string s).

Definition word (isspace : ascii -> bool) (s : string) : Prop :=
  s <> "" /\ space_free isspace s.

(** The characters of a text that are not whitespace. *)
Definition solid (isspace : ascii -> bool) (s : string) : list ascii :=
  filter (fun c => isspace c = false) (list_ascii_of_string s).

(** Whitespace of ASCII, and a [format] that leaves the text as it is
    (as [str.format] does for a text without braces). *)
Definition ascii_isspace (c : ascii) : bool :=
  existsb (Ascii.eqb c)
          [" "%char; "009"%char; "010"%char; "011"%char; "012"%char;
           "013"%char].

Definition format_plain (text : string) (kw : unit) : string := text.

(* ===================================================================== *)
(** ** find_home_directory and find_debian_architecture                  *)
(* ===================================================================== *)

(** The exceptions of these functions, and what a call comes to. *)
Inductive exception :=
| KeyError
| AssertionError
| ExternalCommandFailed.

Inductive answer (A : Type) :=
| Ok (a : A)
| Exc (e : exception).
Arguments Ok {A} a.
Arguments Exc {A} e.

(** The [try] block of [find_home_directory]: [os.environ['HOME']] raises
    [KeyError] when the variable is not set, and the [assert] raises
    [AssertionError] when the real path is no directory. *)
Definition home_of_environment (environ : gmap string string) (w : world)
  : answer string :=
  match environ !! "HOME" with
  | None => Exc KeyError
  | Some value =>
      let home := os.path.realpath value w in
      if os.path.isdir home w then Ok home else Exc AssertionError
  end.

(** [pwd.getpwuid(uid).pw_dir]: [KeyError] when the user is unknown. *)
Definition getpwuid_pw_dir (passwd : gmap N string) (uid : N) : answer string :=
  match passwd !! uid with
  | Some pw_dir => Ok pw_dir
  | None => Exc KeyError
  end.

(** [find_home_directory()], in an environment [environ], for the user
    [uid] and the password database [passwd]. *)
Definition find_home_directory (environ : gmap string string)
    (passwd : gmap N string) (uid : N) (w : world) : answer string :=
  match home_of_environment environ w with
  | Ok home => Ok home
  | Exc _ => getpwuid_pw_dir passwd uid
  end.

(** [s.strip()]: whitespace is removed at both ends. *)
Fixpoint lstrip (isspace : ascii -> bool) (l : list ascii) : list ascii :=
  match l with
  | [] => []
  | c :: rest => if isspace c then lstrip isspace rest else l
  end.

Definition strip (isspace : ascii -> bool) (s : string) : string :=
  string_of_list_ascii
    (rev (lstrip isspace (rev (lstrip isspace (list_ascii_of_string s))))).

(** [find_debian_architecture()] on a machine whose [os.uname()] has
    [machine] as fifth value. [execute] is the function of the package
    [executor] with [capture=True]: it runs a command and yields its
    output or raises [ExternalCommandFailed]. The second component lists
    the commands that were run. *)
Definition find_debian_architecture (isspace : ascii -> bool)
    (execute : list string -> answer string) (machine : string)
  : answer string * list (list string) :=
  if String.eqb machine "i686" then (Ok "i386", [])
  else if String.eqb machine "x86_64" then (Ok "amd64", [])
  else if String.eqb machine "armv6l" then (Ok "armhf", [])
  else
    let command := ["dpkg-architecture"; "-qDEB_BUILD_ARCH"] in
    match execute command with
    | Ok output => (Ok (strip isspace output), [command])
    | Exc e => (Exc e, [command])
    end.

(** A user whose [HOME] points to the repository, one whose [HOME] points
    nowhere, and the password database. *)
Definition environ_repo : gmap string string := {[ "HOME" := "/data/./repo/" ]}.

Definition environ_lost : gmap string string := {[ "HOME" := "/home/gone" ]}.

Definition passwd_db : gmap N string := {[ 1000%N := "/home/user" ]}.

(** A machine without [dpkg-dev], and one where [dpkg-architecture]
    answers. *)
Definition execute_missing (command : list string) : answer string :=
  Exc ExternalCommandFailed.

Definition execute_arm64 (command : list string) : answer string :=
  Ok (String "010" (" arm64" ++ String "010" "")).

(** No whitespace at the start and none at the end. *)
Definition trimmed (isspace : ascii -> bool) (l : list ascii) : Prop :=
  (forall c rest, l = c :: rest -> isspace c = false)
  /\ (forall c front, l = (front ++ [c])%list -> isspace c = false).

Definition inside_weight (p : process) : nat :=
  if is_inside p then 1 else 0.

(** The state of affairs that every step keeps: all handles have the
    marker path [d], the other processes leave it alone, and either
    nobody is inside and nothing is at [d], or one process is inside and
    the marker directory is at [d]. *)
Definition exclusive (d : string) (st : list process * world) : Prop :=
  Forall (fun p => lock_directory (handle p) = d) (fst st)
  /\ undisturbed d (snd st)
  /\ ((inside_count (fst st) = 0 /\ fs (snd st) !! d = None)
      \/ (inside_count (fst st) = 1 /\ fs (snd st) !! d = Some Dir)).

(** The [with] statement around a block that may raise and may also fail
    to come back, as a block does that waits for a lock itself. *)
Definition with_partial {A : Type} (fuel : nat) (self : atomic_lock)
    (block : world -> option (result A * world)) (w : world)
  : option (result A * world) :=
  match __enter__ fuel self w with
  | None => None
  | Some (Raise e, w1) => Some (Raise e, w1)
  | Some (Return _, w1) =>
      match block w1 with
      | None => None
      | Some (r, w2) =>
          match __exit__ self w2 with
          | (Raise e, w3) => Some (Raise e, w3)
          | (Return _, w3) => Some (r, w3)
          end
      end
  end.

(** Somebody left a symbolic link to a directory where the marker of the
    repository goes. *)
Definition machine_stray_link : world :=
  set_fs (<[repo_marker := Link true]> (fs machine)) machine.

(** The same machine, seen by a process that was started with another
    [TMPDIR]. *)
Definition machine_other_tmpdir : world :=
  World (fs machine) ∅ "/home/user" "/var/tmp" 0 [] [].

(* ===================================================================== *)
(** ** Checks of the model against known values                          *)
(* ===================================================================== *)

Example sha1_empty : sha1 "" = "da39a3ee5e6b4b0d3255bfef95601890afd80709".
Proof. vm_compute. reflexivity. Qed.

Example sha1_abc : sha1 "abc" = "a9993e364706816aba3e25717850c26c9cd0d89d".
Proof. vm_compute. reflexivity. Qed.

Example sha1_data_repo :
  sha1 "/data/repo" = "6877d6a4e60b6e8c0b91c42b2e82c0d69d03bd4a".
Proof. vm_compute. reflexivity. Qed.

Example sha1_two_blocks :
  sha1 "/var/www/apt-archive/some/repository/that/needs/a/second/block/of/input"
  = "612a0a59964450d88022a5c96517f068b0ce0583".
Proof. vm_compute. reflexivity. Qed.

Example realpath_dot : os.path.realpath "/data/./repo" machine = "/data/repo".
Proof. reflexivity. Qed.

Example realpath_relative : os.path.realpath "../x/../y" machine = "/home/y".
Proof. reflexivity. Qed.

Example realpath_root : os.path.realpath "//a/b/../../../c" machine = "/c".
Proof. reflexivity. Qed.

Example join_plain : os.path.join "/tmp" "x.lock" = "/tmp/x.lock".
Proof. reflexivity. Qed.

Example join_absolute : os.path.join "/tmp" "/x" = "/x".
Proof. reflexivity. Qed.

Example init_repo : __init__ "/data/repo" false machine = Return (repo_lock false).
Proof. vm_compute. reflexivity. Qed.

(* ===================================================================== *)
(** ** Basic facts about the calls                                       *)
(* ===================================================================== *)

Lemma errno_eqb_EEXIST e : errno_eqb e EEXIST = true <-> e = EEXIST.
Proof. destruct e as [|c]; simpl; split; congruence. Qed.

Lemma fs_log ev w : fs (log ev w) = fs w.
Proof. reflexivity. Qed.

Lemma trace_log ev w : trace (log ev w) = (trace w ++ [ev])%list.
Proof. reflexivity. Qed.

Section Makedirs.

Variables (directory : string) (w : world).

(** The three outcomes of [makedirs], by the state of the path. *)
Lemma makedirs_present :
  is_Some (fs w !! directory) ->
  makedirs directory w
  = (Return false, log (EvMakedirs directory (Raise (OSError EEXIST))) w).
Proof.
  intros [x Hx]. unfold makedirs, os.makedirs. rewrite Hx. reflexivity.
Qed.

Lemma makedirs_created :
  fs w !! directory = None -> faults w !! directory = None ->
  makedirs directory w
  = (Return true,
     log (EvMakedirs directory (Return tt))
         (set_fs (<[directory := Dir]> (fs w)) w)).
Proof.
  intros Hfs Hfault. unfold makedirs, os.makedirs. rewrite Hfs, Hfault.
  reflexivity.
Qed.

Lemma makedirs_refused c :
  fs w !! directory = None -> faults w !! directory = Some c ->
  makedirs directory w
  = (Raise (OSError (Errno c)),
     log (EvMakedirs directory (Raise (OSError (Errno c)))) w).
Proof.
  intros Hfs Hfault. unfold makedirs, os.makedirs. rewrite Hfs, Hfault.
  reflexivity.
Qed.

(** [makedirs] answers [True] exactly when its call created the directory. *)
Lemma makedirs_true_iff w1 :
  makedirs directory w = (Return true, w1) <->
  fs w !! directory = None /\ faults w !! directory = None /\
  w1 = log (EvMakedirs directory (Return tt))
           (set_fs (<[directory := Dir]> (fs w)) w).
Proof.
  split.
  - destruct (fs w !! directory) as [x|] eqn:Hfs.
    + rewrite makedirs_present by eauto. discriminate.
    + destruct (faults w !! directory) as [c|] eqn:Hfault.
      * rewrite (makedirs_refused c) by assumption. discriminate.
      * rewrite makedirs_created by assumption. intros [= <-]. auto.
  - intros (Hfs & Hfault & ->). apply makedirs_created; assumption.
Qed.

(** [makedirs] answers [False] exactly when something is at the path. *)
Lemma makedirs_false_iff w1 :
  makedirs directory w = (Return false, w1) <->
  is_Some (fs w !! directory) /\
  w1 = log (EvMakedirs directory (Raise (OSError EEXIST))) w.
Proof.
  split.
  - destruct (fs w !! directory) as [x|] eqn:Hfs.
    + rewrite makedirs_present by eauto. intros [= <-]. eauto.
    + destruct (faults w !! directory) as [c|] eqn:Hfault.
      * rewrite (makedirs_refused c) by assumption. discriminate.
      * rewrite makedirs_created by assumption. discriminate.
  - intros (Hfs & ->). apply makedirs_present; assumption.
Qed.

End Makedirs.

(* ===================================================================== *)
(** ** Other processes, and what a sleep changes                         *)
(* ===================================================================== *)

Lemma perform_spares p a (m : gmap string node) :
  spares p a -> perform m a !! p = m !! p.
Proof.
  destruct a as [q|q|q|q]; simpl; intros Hne.
  - destruct (m !! q); [reflexivity|]. by rewrite lookup_insert_ne.
  - destruct (m !! q) as [[| |?]|]; try reflexivity. by rewrite lookup_delete_ne.
  - destruct (m !! q); [reflexivity|]. by rewrite lookup_insert_ne.
  - destruct (m !! q) as [[| |?]|]; try reflexivity. by rewrite lookup_delete_ne.
Qed.

Lemma perform_all_spares p (acts : list action) :
  Forall (spares p) acts ->
  forall m : gmap string node, fold_left perform acts m !! p = m !! p.
Proof.
  induction 1 as [|a acts Ha _ IH]; intros m; simpl; [reflexivity|].
  rewrite IH. by apply perform_spares.
Qed.

Lemma sleep_undisturbed p ms w :
  undisturbed p w ->
  fs (time.sleep ms w) !! p = fs w !! p /\ undisturbed p (time.sleep ms w).
Proof.
  unfold undisturbed, time.sleep. simpl.
  destruct (others w) as [|acts rest]; simpl; intros H.
  - split; [reflexivity | constructor].
  - inversion H; subst. split; [by apply perform_all_spares | assumption].
Qed.

Lemma sleep_clock ms w : clock (time.sleep ms w) = (clock w + ms)%N.
Proof. reflexivity. Qed.

Lemma sleep_faults ms w : faults (time.sleep ms w) = faults w.
Proof. reflexivity. Qed.

Lemma after_round_trace self started w :
  trace (after_round self started w)
  = (trace w ++ [EvMakedirs (lock_directory self) (Raise (OSError EEXIST));
                 EvSpinner (pathname self) (clock w - started);
                 EvSleep 100])%list.
Proof.
  unfold after_round, time.sleep, spinner_step, log. simpl.
  by rewrite <- !app_assoc.
Qed.

Lemma after_round_clock self started w :
  clock (after_round self started w) = (clock w + 100)%N.
Proof. reflexivity. Qed.

Lemma after_round_undisturbed self started w p :
  undisturbed p w ->
  fs (after_round self started w) !! p = fs w !! p
  /\ undisturbed p (after_round self started w).
Proof.
  intros H. unfold after_round.
  apply (sleep_undisturbed p 100
           (spinner_step (pathname self) started
              (log (EvMakedirs (lock_directory self) (Raise (OSError EEXIST))) w))).
  exact H.
Qed.

(** The loop, unfolded once, by the three states of the marker path. *)
Section Loop.

Variables (self : atomic_lock) (started : N) (w : world) (fuel : nat).

Lemma loop_created :
  fs w !! lock_directory self = None ->
  faults w !! lock_directory self = None ->
  while_True (S fuel) self started w
  = Some (Return tt,
          log (EvMakedirs (lock_directory self) (Return tt))
              (set_fs (<[lock_directory self := Dir]> (fs w)) w)).
Proof.
  intros Hfs Hfault. simpl. by rewrite makedirs_created.
Qed.

Lemma loop_refused c :
  fs w !! lock_directory self = None ->
  faults w !! lock_directory self = Some c ->
  while_True (S fuel) self started w
  = Some (Raise (OSError (Errno c)),
          log (EvMakedirs (lock_directory self) (Raise (OSError (Errno c)))) w).
Proof.
  intros Hfs Hfault. simpl. by rewrite (makedirs_refused _ _ c).
Qed.

Lemma loop_contended :
  is_Some (fs w !! lock_directory self) -> wait self = false ->
  while_True (S fuel) self started w
  = Some (Raise (ResourceLockedException (locked_message (pathname self))),
          log (EvMakedirs (lock_directory self) (Raise (OSError EEXIST))) w).
Proof.
  intros Hfs Hwait. simpl. rewrite makedirs_present by assumption.
  by rewrite Hwait.
Qed.

Lemma loop_waits :
  is_Some (fs w !! lock_directory self) -> wait self = true ->
  while_True (S fuel) self started w
  = while_True fuel self started (after_round self started w).
Proof.
  intros Hfs Hwait. simpl. rewrite makedirs_present by assumption.
  by rewrite Hwait.
Qed.

End Loop.

(** A waiting [__enter__] whose marker path stays taken never comes back:
    whatever the fuel, the loop is still running. *)
Lemma loop_stuck (self : atomic_lock) (started : N) (fuel : nat) :
  wait self = true ->
  forall w,
    is_Some (fs w !! lock_directory self) ->
    undisturbed (lock_directory self) w ->
    while_True fuel self started w = None.
Proof.
  intros Hwait. induction fuel as [|fuel IH]; intros w Hfs Hquiet.
  - reflexivity.
  - rewrite loop_waits by assumption.
    destruct (after_round_undisturbed self started w _ Hquiet) as [Hsame Hq].
    apply IH; [by rewrite Hsame | assumption].
Qed.

(* ===================================================================== *)
(** ** Acquisition without waiting                                       *)
(* ===================================================================== *)

(** C3. A handle that does not wait and finds its marker path taken fails
    at once: [__enter__] makes one call of [os.makedirs] and raises
    [ResourceLockedException]; it does not sleep (the clock and the pending
    actions of other processes are as before), the filesystem is unchanged,
    so the marker of the holder is still there, and the message contains
    the pathname of the handle. *)
Theorem C3_contended_without_waiting (self : atomic_lock) (w : world) (fuel : nat) :
  wait self = false ->
  is_Some (fs w !! lock_directory self) ->
  exists w',
    __enter__ (S fuel) self w
    = Some (Raise (ResourceLockedException
                     ("Failed to lock " ++ pathname self
                        ++ " for exclusive access!")), w')
    /\ trace w'
       = (trace w ++ [EvMakedirs (lock_directory self) (Raise (OSError EEXIST))])%list
    /\ clock w' = clock w
    /\ others w' = others w
    /\ fs w' = fs w
    /\ fs w' !! lock_directory self = fs w !! lock_directory self.
Proof.
  intros Hwait Hfs.
  exists (log (EvMakedirs (lock_directory self) (Raise (OSError EEXIST))) w).
  unfold __enter__. rewrite loop_contended by assumption.
  repeat split; reflexivity.
Qed.

Lemma C3_witness :
  is_Some (fs machine_locked !! repo_marker)
  /\ exists w',
       __enter__ 1 (repo_lock false) machine_locked
       = Some (Raise (ResourceLockedException
                        "Failed to lock /data/repo for exclusive access!"), w')
       /\ fs w' !! repo_marker = Some Dir.
Proof.
  assert (Htaken : fs machine_locked !! repo_marker = Some Dir)
    by (vm_compute; reflexivity).
  split; [exists Dir; exact Htaken|].
  destruct (C3_contended_without_waiting (repo_lock false) machine_locked 0)
    as (w' & Henter & _ & _ & _ & _ & Hkept).
  - reflexivity.
  - exists Dir. exact Htaken.
  - exists w'. split; [exact Henter|].
    transitivity (fs machine_locked !! repo_marker); [exact Hkept|exact Htaken].
Defined.

(* ===================================================================== *)
(** ** Release                                                           *)
(* ===================================================================== *)

Lemma isdir_true_iff p w :
  os.path.isdir p w = true <->
  fs w !! p = Some Dir \/ fs w !! p = Some (Link true).
Proof.
  unfold os.path.isdir.
  destruct (fs w !! p) as [[| |[]]|]; split;
    (intros [?|?] || intros ?); try congruence; auto.
Qed.

Lemma exit_directory self w :
  fs w !! lock_directory self = Some Dir ->
  __exit__ self w
  = (Return tt,
     log (EvRmdir (lock_directory self) (Return tt))
         (set_fs (delete (lock_directory self) (fs w)) w)).
Proof.
  intros Hfs. unfold __exit__, os.path.isdir, os.rmdir. by rewrite Hfs.
Qed.

Lemma exit_not_isdir self w :
  os.path.isdir (lock_directory self) w = false ->
  __exit__ self w = (Return tt, w).
Proof. intros Hdir. unfold __exit__. by rewrite Hdir. Qed.

Lemma exit_no_directory self w :
  fs w !! lock_directory self <> Some Dir ->
  fs w !! lock_directory self <> Some (Link true) ->
  __exit__ self w = (Return tt, w).
Proof.
  intros Hdir Hlink. apply exit_not_isdir.
  destruct (os.path.isdir (lock_directory self) w) eqn:Hisdir;
    [|reflexivity].
  apply isdir_true_iff in Hisdir as [?|?]; contradiction.
Qed.

(** A symbolic link to a directory passes for a directory, and [os.rmdir]
    refuses it. *)
Lemma exit_link self w :
  fs w !! lock_directory self = Some (Link true) ->
  __exit__ self w
  = (Raise (OSError (Errno ENOTDIR)),
     log (EvRmdir (lock_directory self) (Raise (OSError (Errno ENOTDIR)))) w).
Proof.
  intros Hfs. unfold __exit__, os.path.isdir, os.rmdir. by rewrite Hfs.
Qed.

(** After an [__exit__] that returned, nothing at the marker path passes
    for a directory. *)
Lemma exit_returned self w w1 :
  __exit__ self w = (Return tt, w1) ->
  os.path.isdir (lock_directory self) w1 = false.
Proof.
  destruct (fs w !! lock_directory self) as [[| |[]]|] eqn:Hfs.
  - rewrite exit_no_directory by congruence. intros [= <-].
    unfold os.path.isdir. by rewrite Hfs.
  - rewrite exit_directory by assumption. intros [= <-].
    unfold os.path.isdir. cbn [fs log set_fs]. by rewrite lookup_delete_eq.
  - rewrite exit_link by assumption. discriminate.
  - rewrite exit_no_directory by congruence. intros [= <-].
    unfold os.path.isdir. by rewrite Hfs.
  - rewrite exit_no_directory by congruence. intros [= <-].
    unfold os.path.isdir. by rewrite Hfs.
Qed.

(** C4. When no marker directory exists at release time (it was never
    created, or was removed by someone else), [__exit__] returns without
    raising and leaves the whole world as it was: no call reaches the
    filesystem. In particular a release that follows one that returned
    does nothing. *)
Theorem C4_release_without_marker (self : atomic_lock) (w : world) :
  (fs w !! lock_directory self = None -> __exit__ self w = (Return tt, w))
  /\ (os.path.isdir (lock_directory self) w = false ->
      __exit__ self w = (Return tt, w))
  /\ (forall w1, __exit__ self w = (Return tt, w1) ->
                 __exit__ self w1 = (Return tt, w1)).
Proof.
  split; [|split].
  - intros Hfs. apply exit_no_directory; congruence.
  - apply exit_not_isdir.
  - intros w1 Hfirst. apply exit_not_isdir.
    eapply exit_returned. exact Hfirst.
Qed.

Lemma C4_witness :
  fs machine !! repo_marker = None
  /\ __exit__ (repo_lock true) machine = (Return tt, machine).
Proof.
  assert (Habsent : fs machine !! repo_marker = None)
    by (vm_compute; reflexivity).
  split; [exact Habsent|].
  destruct (C4_release_without_marker (repo_lock true) machine) as [Hfree _].
  apply Hfree. exact Habsent.
Defined.

(* ===================================================================== *)
(** ** Acquire, then release                                             *)
(* ===================================================================== *)

(** C5. From a world with nothing at the marker path, where the marker can
    be created: [__enter__] returns at its first attempt, in either mode,
    and the lock is held, the marker directory exists; then [__exit__]
    returns, the marker is gone and the filesystem is again what it was
    before the lock was taken. The same holds for the [with] statement
    around a block that leaves the filesystem as it is: the block runs
    while the marker exists, and [__exit__] runs after it. (When the kernel
    refuses the creation, [__enter__] raises and there is no marker
    either.) *)
Theorem C5_enter_exit_leaves_no_marker (self : atomic_lock) (w : world) (fuel : nat) :
  fs w !! lock_directory self = None ->
  (faults w !! lock_directory self = None ->
   __enter__ (S fuel) self w = Some (Return tt, created self w)
   /\ fs (created self w) !! lock_directory self = Some Dir
   /\ (exists w2,
         __exit__ self (created self w) = (Return tt, w2)
         /\ fs w2 !! lock_directory self = None
         /\ fs w2 = fs w
         /\ trace w2
            = (trace w ++ [EvMakedirs (lock_directory self) (Return tt);
                           EvRmdir (lock_directory self) (Return tt)])%list)
   /\ (forall block : world -> world,
         (forall v, fs (block v) = fs v) ->
         exists w',
           with_atomic_lock (S fuel) self block w = Some (Return tt, w')
           /\ w' = snd (__exit__ self (block (created self w)))
           /\ fs (block (created self w)) !! lock_directory self = Some Dir
           /\ fs w' !! lock_directory self = None
           /\ fs w' = fs w))
  /\ (forall c,
        faults w !! lock_directory self = Some c ->
        __enter__ (S fuel) self w
        = Some (Raise (OSError (Errno c)),
                log (EvMakedirs (lock_directory self)
                                (Raise (OSError (Errno c)))) w)).
Proof.
  intros Hfs. unfold with_atomic_lock, __enter__. split.
  - intros Hfault. rewrite loop_created by assumption. fold (created self w).
    assert (Hheld : fs (created self w) !! lock_directory self = Some Dir)
      by (unfold created; cbn [fs log set_fs]; apply lookup_insert_eq).
    assert (Hback : delete (lock_directory self) (fs (created self w)) = fs w).
    { unfold created. cbn [fs log set_fs]. by apply delete_insert_id. }
    split; [reflexivity|]. split; [exact Hheld|]. split.
    + rewrite exit_directory by assumption. eexists. split; [reflexivity|].
      cbn [fs log set_fs]. rewrite Hback. split; [exact Hfs|].
      split; [reflexivity|].
      unfold created. cbn [trace log set_fs]. by rewrite <- app_assoc.
    + intros block Hblock.
      rewrite exit_directory by (rewrite Hblock; exact Hheld).
      eexists. split; [reflexivity|]. split; [reflexivity|].
      split; [rewrite Hblock; exact Hheld|]. cbn [fs log set_fs].
      rewrite Hblock, Hback. split; [exact Hfs | reflexivity].
  - intros c Hfault. by rewrite (loop_refused _ _ _ _ c).
Qed.

Lemma C5_witness :
  fs machine !! repo_marker = None
  /\ __enter__ 1 (repo_lock true) machine
     = Some (Return tt, created (repo_lock true) machine)
  /\ fs (created (repo_lock true) machine) !! repo_marker = Some Dir
  /\ exists w2,
       __exit__ (repo_lock true) (created (repo_lock true) machine)
       = (Return tt, w2)
       /\ fs w2 !! repo_marker = None
       /\ fs w2 = fs machine.
Proof.
  assert (Habsent : fs machine !! repo_marker = None)
    by (vm_compute; reflexivity).
  split; [exact Habsent|].
  destruct (C5_enter_exit_leaves_no_marker (repo_lock true) machine 0 Habsent)
    as [Hheld _].
  destruct Hheld as (Henter & Hdir & (w2 & Hexit & Hgone & Hsame & _) & _).
  - vm_compute. reflexivity.
  - split; [exact Henter|]. split; [exact Hdir|].
    exists w2. split; [exact Hexit|]. split; [exact Hgone | exact Hsame].
Defined.

(* ===================================================================== *)
(** ** Errors other than "already exists"                                *)
(* ===================================================================== *)

Lemma os_makedirs_trace directory w r w1 :
  os.makedirs directory w = (r, w1) ->
  trace w1 = (trace w ++ [EvMakedirs directory r])%list.
Proof.
  unfold os.makedirs.
  destruct (fs w !! directory); [|destruct (faults w !! directory)];
    intros [= <- <-]; reflexivity.
Qed.

(** [makedirs] hands on every [OSError] other than [EEXIST] as it is. *)
Lemma makedirs_propagates directory w e w1 :
  os.makedirs directory w = (Raise (OSError e), w1) -> e <> EEXIST ->
  makedirs directory w = (Raise (OSError e), w1).
Proof.
  intros Hos Hne. unfold makedirs. rewrite Hos.
  destruct (errno_eqb e EEXIST) eqn:Heq; [|reflexivity].
  apply errno_eqb_EEXIST in Heq. contradiction.
Qed.

(** An [OSError] that leaves the loop is the one of the last call of
    [os.makedirs], and it is not [EEXIST]. *)
Lemma loop_oserror self started fuel :
  forall w e w',
    while_True fuel self started w = Some (Raise (OSError e), w') ->
    e <> EEXIST
    /\ exists v, os.makedirs (lock_directory self) v = (Raise (OSError e), w')
                 /\ trace w'
                    = (trace v ++ [EvMakedirs (lock_directory self)
                                              (Raise (OSError e))])%list.
Proof.
  induction fuel as [|fuel IH]; intros w e w'; [discriminate|].
  destruct (fs w !! lock_directory self) as [x|] eqn:Hfs.
  - destruct (wait self) eqn:Hwait.
    + rewrite loop_waits by eauto. apply IH.
    + rewrite loop_contended by eauto. discriminate.
  - destruct (faults w !! lock_directory self) as [c|] eqn:Hfault.
    + rewrite (loop_refused _ _ _ _ c) by assumption. intros [= <- <-].
      split; [discriminate|]. exists w. split.
      * unfold os.makedirs. rewrite Hfs, Hfault. reflexivity.
      * reflexivity.
    + rewrite loop_created by assumption. discriminate.
Qed.

(** C6. Whether the handle waits or not: when [os.makedirs] on the marker
    path raises an [OSError] other than [EEXIST], [__enter__] raises this
    very error to its caller and stops there, with no further attempt;
    every [OSError] that [__enter__] raises arose that way, in the last
    call it made; and only [EEXIST] is turned into the answer [False] that
    leads to waiting or to [ResourceLockedException]. *)
Theorem C6_other_errors_propagate (self : atomic_lock) :
  (forall w e w1 fuel,
     os.makedirs (lock_directory self) w = (Raise (OSError e), w1) ->
     e <> EEXIST ->
     __enter__ (S fuel) self w = Some (Raise (OSError e), w1)
     /\ trace w1 = (trace w ++ [EvMakedirs (lock_directory self)
                                           (Raise (OSError e))])%list)
  /\ (forall fuel w e w',
        __enter__ fuel self w = Some (Raise (OSError e), w') ->
        e <> EEXIST
        /\ exists v, os.makedirs (lock_directory self) v = (Raise (OSError e), w')
                     /\ trace w'
                        = (trace v ++ [EvMakedirs (lock_directory self)
                                                  (Raise (OSError e))])%list)
  /\ (forall w w1,
        makedirs (lock_directory self) w = (Return false, w1) <->
        os.makedirs (lock_directory self) w = (Raise (OSError EEXIST), w1)).
Proof.
  split; [|split].
  - intros w e w1 fuel Hos Hne. split.
    + unfold __enter__. simpl.
      by rewrite (makedirs_propagates _ _ _ _ Hos Hne).
    + by apply os_makedirs_trace.
  - intros fuel w e w'. apply loop_oserror.
  - intros w w1. rewrite makedirs_false_iff. unfold os.makedirs.
    destruct (fs w !! lock_directory self) as [x|] eqn:Hfs.
    + split.
      * intros [_ ->]. reflexivity.
      * intros [= <-]. eauto.
    + split.
      * intros [[x Hx] _]. discriminate.
      * destruct (faults w !! lock_directory self); discriminate.
Qed.

Lemma C6_witness :
  __enter__ 1 (repo_lock true) machine_readonly
  = Some (Raise (OSError (Errno EROFS)),
          log (EvMakedirs repo_marker (Raise (OSError (Errno EROFS))))
              machine_readonly)
  /\ __enter__ 1 (repo_lock false) machine_readonly
     = Some (Raise (OSError (Errno EROFS)),
             log (EvMakedirs repo_marker (Raise (OSError (Errno EROFS))))
                 machine_readonly).
Proof.
  split.
  - destruct (C6_other_errors_propagate (repo_lock true)) as [Hfirst _].
    apply (Hfirst machine_readonly (Errno EROFS)).
    + vm_compute. reflexivity.
    + discriminate.
  - destruct (C6_other_errors_propagate (repo_lock false)) as [Hfirst _].
    apply (Hfirst machine_readonly (Errno EROFS)).
    + vm_compute. reflexivity.
    + discriminate.
Defined.

(* ===================================================================== *)
(** ** Waiting for the lock                                              *)
(* ===================================================================== *)

Lemma rounds_clock self started k :
  forall w, clock (rounds k self started w) = (clock w + 100 * N.of_nat k)%N.
Proof.
  induction k as [|k IH]; intros w.
  - simpl. lia.
  - cbn [rounds]. rewrite IH, after_round_clock. lia.
Qed.

Lemma rounds_trace self started k :
  forall w,
    (started <= clock w)%N ->
    trace (rounds k self started w)
    = (trace w ++ waiting (lock_directory self) (pathname self)
                          (clock w - started) k)%list.
Proof.
  induction k as [|k IH]; intros w Hle.
  - simpl. by rewrite app_nil_r.
  - cbn [rounds waiting]. rewrite IH by (rewrite after_round_clock; lia).
    rewrite after_round_trace, after_round_clock, <- app_assoc. simpl.
    replace (clock w + 100 - started)%N with (clock w - started + 100)%N by lia.
    reflexivity.
Qed.

(** Every return of the loop comes from a creation of the marker, after
    some rounds of waiting, fewer than the fuel. *)
Lemma loop_return self started fuel :
  forall w w',
    while_True fuel self started w = Some (Return tt, w') ->
    exists k,
      k < fuel
      /\ fs (rounds k self started w) !! lock_directory self = None
      /\ faults (rounds k self started w) !! lock_directory self = None
      /\ w' = log (EvMakedirs (lock_directory self) (Return tt))
                  (set_fs (<[lock_directory self := Dir]>
                             (fs (rounds k self started w)))
                          (rounds k self started w)).
Proof.
  induction fuel as [|fuel IH]; intros w w'; [discriminate|].
  destruct (fs w !! lock_directory self) as [x|] eqn:Hfs.
  - destruct (wait self) eqn:Hwait.
    + rewrite loop_waits by eauto. intros Hloop.
      destruct (IH _ _ Hloop) as (k & Hk & Hrest).
      exists (S k). split; [lia | exact Hrest].
    + rewrite loop_contended by eauto. discriminate.
  - destruct (faults w !! lock_directory self) as [c|] eqn:Hfault.
    + rewrite (loop_refused _ _ _ _ c) by assumption. discriminate.
    + rewrite loop_created by assumption. intros [= <-].
      exists 0. simpl. repeat split; try assumption. lia.
Qed.

(** A waiting handle never reports contention. *)
Lemma loop_no_contention self started fuel :
  wait self = true ->
  forall w msg w',
    while_True fuel self started w
    <> Some (Raise (ResourceLockedException msg), w').
Proof.
  intros Hwait. induction fuel as [|fuel IH]; intros w msg w'; [discriminate|].
  destruct (fs w !! lock_directory self) as [x|] eqn:Hfs.
  - rewrite loop_waits by eauto. apply IH.
  - destruct (faults w !! lock_directory self) as [c|] eqn:Hfault.
    + rewrite (loop_refused _ _ _ _ c) by assumption. discriminate.
    + rewrite loop_created by assumption. discriminate.
Qed.

(** What a waiting [__enter__] can come back with: a return, or the error
    for which the kernel refuses to create the marker. *)
Lemma loop_outcomes self started fuel :
  wait self = true ->
  forall w r w',
    while_True fuel self started w = Some (r, w') ->
    r = Return tt
    \/ exists c, faults w !! lock_directory self = Some c
                 /\ r = Raise (OSError (Errno c)).
Proof.
  intros Hwait. induction fuel as [|fuel IH]; intros w r w'; [discriminate|].
  destruct (fs w !! lock_directory self) as [x|] eqn:Hfs.
  - rewrite loop_waits by eauto. intros Hloop.
    apply IH in Hloop. exact Hloop.
  - destruct (faults w !! lock_directory self) as [c|] eqn:Hfault.
    + rewrite (loop_refused _ _ _ _ c) by assumption. intros [= <- <-].
      right. eauto.
    + rewrite loop_created by assumption. intros [= <- <-]. by left.
Qed.

(** While the marker path stays taken, the loop goes round and round. *)
Lemma loop_rounds self started :
  wait self = true ->
  forall k fuel w,
    is_Some (fs w !! lock_directory self) ->
    undisturbed (lock_directory self) w ->
    while_True (k + fuel) self started w
    = while_True fuel self started (rounds k self started w)
    /\ fs (rounds k self started w) !! lock_directory self
       = fs w !! lock_directory self.
Proof.
  intros Hwait. induction k as [|k IH]; intros fuel w Hfs Hquiet.
  - split; reflexivity.
  - destruct (after_round_undisturbed self started w _ Hquiet) as [Hsame Hq].
    cbn [rounds Nat.add]. rewrite loop_waits by assumption.
    destruct (IH fuel (after_round self started w)) as [Hloop Hkept];
      [by rewrite Hsame | assumption |].
    split; [exact Hloop | by rewrite Hkept].
Qed.

(** The holder removes its marker during sleep number [n + 1] of the waiting
    process: that process goes through [n + 1] rounds and then returns. *)
Lemma loop_released self started :
  wait self = true ->
  forall n extra w rest,
    fs w !! lock_directory self = Some Dir ->
    faults w !! lock_directory self = None ->
    others w = (repeat [] n ++ [OtherRmdir (lock_directory self)] :: rest)%list ->
    while_True (S (S n) + extra) self started w
    = Some (Return tt, created self (rounds (S n) self started w))
    /\ while_True (S n) self started w = None.
Proof.
  intros Hwait. induction n as [|n IH]; intros extra w rest Hfs Hfault Hothers.
  - simpl in Hothers. cbn [rounds].
    assert (Hgone : fs (after_round self started w) !! lock_directory self = None).
    { unfold after_round, time.sleep, spinner_step, log. simpl.
      rewrite Hothers. simpl. rewrite Hfs. by rewrite lookup_delete_eq. }
    split.
    + change (2 + extra) with (S (S extra)).
      rewrite loop_waits by eauto.
      rewrite loop_created by assumption. reflexivity.
    + rewrite loop_waits by eauto. reflexivity.
  - simpl in Hothers.
    assert (Hsame : fs (after_round self started w) = fs w).
    { unfold after_round, time.sleep, spinner_step, log. simpl.
      rewrite Hothers. reflexivity. }
    assert (Hnext : others (after_round self started w)
                    = (repeat [] n ++ [OtherRmdir (lock_directory self)] :: rest)%list).
    { unfold after_round, time.sleep, spinner_step, log. simpl.
      rewrite Hothers. reflexivity. }
    destruct (IH extra (after_round self started w) rest) as [Hyes Hno];
      [by rewrite Hsame | assumption | assumption |].
    split.
    + change (S (S (S n)) + extra) with (S (S (S n) + extra)).
      rewrite loop_waits by eauto. exact Hyes.
    + rewrite loop_waits by eauto. exact Hno.
Qed.

(** C8. A handle that waits. [__enter__] never raises
    [ResourceLockedException]: it comes back only with a return or, when
    the kernel refuses to create the marker for a reason other than its
    existence, with that [OSError]. When it returns, the return follows a call
    of [os.makedirs] that found nothing at the marker path and created the
    marker; before that it went through some number [k] of rounds, each made
    of a refused creation, a step of the spinner and a sleep of 100
    milliseconds, so that [100 * k] milliseconds have passed. There is no
    bound on the rounds: while the marker path stays taken the loop is
    still running after any number of iterations, and when the holder
    removes the marker during sleep number [n + 1], the call returns after
    exactly [n + 1] rounds, for every [n]. *)
Theorem C8_waiting_acquire (self : atomic_lock) :
  wait self = true ->
  (forall fuel w msg w',
     __enter__ fuel self w <> Some (Raise (ResourceLockedException msg), w'))
  /\ (forall fuel w r w',
        __enter__ fuel self w = Some (r, w') ->
        r = Return tt
        \/ exists c, faults w !! lock_directory self = Some c
                     /\ r = Raise (OSError (Errno c)))
  /\ (forall fuel w w',
        __enter__ fuel self w = Some (Return tt, w') ->
        exists k,
          k < fuel
          /\ fs (rounds k self (clock w) w) !! lock_directory self = None
          /\ w' = created self (rounds k self (clock w) w)
          /\ fs w' !! lock_directory self = Some Dir
          /\ trace w'
             = (trace w
                  ++ waiting (lock_directory self) (pathname self) 0 k
                  ++ [EvMakedirs (lock_directory self) (Return tt)])%list
          /\ clock w' = (clock w + 100 * N.of_nat k)%N)
  /\ (forall fuel w,
        is_Some (fs w !! lock_directory self) ->
        undisturbed (lock_directory self) w ->
        __enter__ fuel self w = None)
  /\ (forall n extra w rest,
        fs w !! lock_directory self = Some Dir ->
        faults w !! lock_directory self = None ->
        others w
        = (repeat [] n ++ [OtherRmdir (lock_directory self)] :: rest)%list ->
        __enter__ (S n) self w = None
        /\ exists w',
             __enter__ (S (S n) + extra) self w = Some (Return tt, w')
             /\ clock w' = (clock w + 100 * N.of_nat (S n))%N).
Proof.
  intros Hwait. unfold __enter__. repeat split.
  - intros fuel w msg w'. by apply loop_no_contention.
  - intros fuel w r w'. by apply loop_outcomes.
  - intros fuel w w' Hloop.
    destruct (loop_return _ _ _ _ _ Hloop) as (k & Hk & Hfs & _ & ->).
    exists k. repeat split; try assumption.
    + unfold created. simpl. by rewrite lookup_insert_eq.
    + unfold created. simpl. rewrite rounds_trace by lia.
      rewrite N.sub_diag, <- app_assoc. reflexivity.
    + unfold created. simpl. apply rounds_clock.
  - intros fuel w Hfs Hquiet. by apply loop_stuck.
  - by apply (loop_released self (clock w) Hwait n extra w rest).
  - destruct (loop_released self (clock w) Hwait n extra w rest)
      as [Hyes _]; try assumption.
    eexists. split; [exact Hyes|].
    change (clock (created self (rounds (S n) self (clock w) w)))
      with (clock (rounds (S n) self (clock w) w)).
    apply rounds_clock.
Qed.

Lemma C8_witness :
  __enter__ 3 (repo_lock true) machine_released_later = None
  /\ exists w',
       __enter__ 4 (repo_lock true) machine_released_later = Some (Return tt, w')
       /\ clock w' = 300%N.
Proof.
  destruct (C8_waiting_acquire (repo_lock true) eq_refl)
    as (_ & _ & _ & _ & Hlater).
  apply (Hlater 2 0 machine_released_later []).
  - vm_compute. reflexivity.
  - vm_compute. reflexivity.
  - reflexivity.
Defined.

(* ===================================================================== *)
(** ** A file at the marker path                                         *)
(* ===================================================================== *)

(** C10, as the code has it. When something that is not a directory sits
    at the marker path, a plain file or a symbolic link: a handle that
    does not wait raises [ResourceLockedException] after one call of
    [os.makedirs], as for a held lock; a handle that waits goes through
    round after round for as long as the thing stays ([k] rounds for
    every [k], and still no result). When the thing is a plain file or a
    link that does not lead to a directory, [__exit__] returns without
    raising and leaves the world as it was. In any world, [__exit__]
    changes the filesystem only when a directory is at the marker path,
    and then what it removes is that directory. *)
Theorem C10_file_at_marker_path (self : atomic_lock) (w : world) (n : node) :
  fs w !! lock_directory self = Some n ->
  n <> Dir ->
  (wait self = false ->
   forall fuel,
     __enter__ (S fuel) self w
     = Some (Raise (ResourceLockedException (locked_message (pathname self))),
             log (EvMakedirs (lock_directory self) (Raise (OSError EEXIST))) w))
  /\ (wait self = true ->
      undisturbed (lock_directory self) w ->
      forall k fuel,
        __enter__ (k + fuel) self w
        = while_True fuel self (clock w) (rounds k self (clock w) w)
        /\ fs (rounds k self (clock w) w) !! lock_directory self = Some n
        /\ __enter__ fuel self w = None)
  /\ (n <> Link true -> __exit__ self w = (Return tt, w))
  /\ (forall v,
        fs (snd (__exit__ self v)) <> fs v ->
        fs v !! lock_directory self = Some Dir
        /\ fs (snd (__exit__ self v)) = delete (lock_directory self) (fs v)).
Proof.
  intros Hn Hnodir.
  assert (Htaken : is_Some (fs w !! lock_directory self)) by eauto.
  split; [|split; [|split]].
  - intros Hwait fuel. unfold __enter__. by apply loop_contended.
  - intros Hwait Hquiet k fuel.
    destruct (loop_rounds self (clock w) Hwait k fuel w Htaken Hquiet)
      as [Hloop Hkept].
    split; [exact Hloop|]. split; [by rewrite Hkept|].
    unfold __enter__. by apply loop_stuck.
  - intros Hnolink. apply exit_no_directory; congruence.
  - intros v Hchanged.
    destruct (fs v !! lock_directory self) as [[| |[]]|] eqn:Hv.
    + rewrite exit_no_directory in Hchanged by congruence. contradiction.
    + rewrite exit_directory by assumption. split; reflexivity.
    + rewrite exit_link in Hchanged by assumption. contradiction.
    + rewrite exit_no_directory in Hchanged by congruence. contradiction.
    + rewrite exit_no_directory in Hchanged by congruence. contradiction.
Qed.

Lemma C10_witness :
  fs machine_stray_file !! repo_marker = Some File
  /\ __enter__ 1 (repo_lock false) machine_stray_file
     = Some (Raise (ResourceLockedException
                      "Failed to lock /data/repo for exclusive access!"),
             log (EvMakedirs repo_marker (Raise (OSError EEXIST)))
                 machine_stray_file)
  /\ __enter__ 50 (repo_lock true) machine_stray_file = None
  /\ __exit__ (repo_lock true) machine_stray_file
     = (Return tt, machine_stray_file).
Proof.
  assert (Hfile : fs machine_stray_file !! repo_marker = Some File)
    by (vm_compute; reflexivity).
  split; [exact Hfile|].
  destruct (C10_file_at_marker_path (repo_lock false) machine_stray_file File
              Hfile ltac:(discriminate)) as (Hnowait & _ & _ & _).
  destruct (C10_file_at_marker_path (repo_lock true) machine_stray_file File
              Hfile ltac:(discriminate)) as (_ & Hwait & Hexit & _).
  split; [|split].
  - apply (Hnowait eq_refl 0).
  - destruct (Hwait eq_refl ltac:(constructor) 0 50) as (_ & _ & Hstuck).
    exact Hstuck.
  - apply Hexit. discriminate.
Defined.

(** C10, where it fails: not every thing that is not a directory is left
    alone without an error. With
    a symbolic link to a directory at the marker path, [os.path.isdir]
    answers [True], [os.rmdir] refuses the link, and [__exit__] raises. *)
Lemma C10_counterexample :
  fs machine_stray_link !! repo_marker = Some (Link true)
  /\ Link true <> Dir
  /\ __exit__ (repo_lock true) machine_stray_link
     = (Raise (OSError (Errno ENOTDIR)),
        log (EvRmdir repo_marker (Raise (OSError (Errno ENOTDIR))))
            machine_stray_link)
  /\ ~ (exists w1, __exit__ (repo_lock true) machine_stray_link
                   = (Return tt, w1)).
Proof.
  assert (Hrun : __exit__ (repo_lock true) machine_stray_link
                 = (Raise (OSError (Errno ENOTDIR)),
                    log (EvRmdir repo_marker (Raise (OSError (Errno ENOTDIR))))
                        machine_stray_link))
    by (vm_compute; reflexivity).
  split; [vm_compute; reflexivity|]. split; [discriminate|].
  split; [exact Hrun|]. intros [w1 Hw1]. rewrite Hrun in Hw1. discriminate.
Qed.

(* ===================================================================== *)
(** ** The marker path                                                   *)
(* ===================================================================== *)

Lemma list_ascii_of_string_append (a b : string) :
  list_ascii_of_string (a ++ b)
  = (list_ascii_of_string a ++ list_ascii_of_string b)%list.
Proof. induction a as [|c a IH]; simpl; [reflexivity | by rewrite IH]. Qed.



Lemma length_string_of_list_ascii (l : list ascii) :
  String.length (string_of_list_ascii l) = length l.
Proof. induction l as [|c l IH]; simpl; [reflexivity | by rewrite IH]. Qed.

Lemma length_append (a b : string) :
  String.length (a ++ b) = String.length a + String.length b.
Proof. induction a as [|c a IH]; simpl; [reflexivity | by rewrite IH]. Qed.

(** The digits of [hexdigest] are never the path separator. *)
Lemma hexdigit_not_sep (n : N) : hashlib.hexdigit n <> os.path.sep.
Proof.
  unfold hashlib.hexdigit, os.path.sep.
  generalize (N.to_nat n). intros m.
  do 16 (destruct m as [|m]; [discriminate|]).
  destruct m; discriminate.
Qed.

Lemma hex32_length (x : N) : length (hashlib.hex32 x) = 8.
Proof. reflexivity. Qed.

Lemma hex32_head (x : N) :
  exists n rest, hashlib.hex32 x = hashlib.hexdigit n :: rest.
Proof. unfold hashlib.hex32. cbn [seq rev app map]. eauto. Qed.

(** The fingerprint has forty characters, and the first is not [/]. *)
Lemma sha1_length (text : string) : String.length (sha1 text) = 40.
Proof.
  unfold sha1, hashlib.sha1_hexdigest, hashlib.digest_words.
  rewrite length_string_of_list_ascii.
  cbn [map concat]. rewrite !length_app, !hex32_length. reflexivity.
Qed.

Lemma sha1_not_absolute (text suffix : string) :
  os.path.isabs (sha1 text ++ suffix) = false.
Proof.
  unfold sha1, hashlib.sha1_hexdigest, hashlib.digest_words.
  cbn [map concat].
  destruct (hex32_head
              (hashlib.ra
                 (hashlib.blocks
                    (Nat.div (length (hashlib.pad (encode_utf8 text))) 64)
                    hashlib.initial (hashlib.pad (encode_utf8 text)))))
    as (n & rest & ->).
  cbn [app string_of_list_ascii String.append os.path.isabs].
  apply Ascii.eqb_neq, hexdigit_not_sep.
Qed.

Lemma join_relative (a b : string) :
  os.path.isabs b = false -> os.path.join a b = a ++ joint a ++ b.
Proof.
  intros Hrel. unfold os.path.join, joint. rewrite Hrel.
  destruct (String.eqb a "" || os.path.endswith_sep a); reflexivity.
Qed.


(** What [__init__] does when it returns, and when it returns. *)
Lemma init_returns (pathname0 : string) (wait0 : bool) (w : world)
    (self : atomic_lock) :
  __init__ pathname0 wait0 w = Return self ->
  os.path.embedded_null pathname0 w = false
  /\ surrogate (os.path.realpath pathname0 w) = false
  /\ self = {| wait := wait0;
               pathname := os.path.realpath pathname0 w;
               lock_directory :=
                 os.path.join (tempfile.gettempdir w)
                   (sha1 (os.path.realpath pathname0 w) ++ ".lock") |}.
Proof.
  unfold __init__.
  destruct (os.path.embedded_null pathname0 w); [discriminate|].
  cbn zeta.
  destruct (surrogate (os.path.realpath pathname0 w)); [discriminate|].
  intros [= <-]. auto.
Qed.





(* ===================================================================== *)
(** ** Several processes at once                                         *)
(* ===================================================================== *)

(** Once something is at the marker path, every process that does not wait
    is turned away, and the filesystem stays as it is. *)
Lemma enter_each_taken (d : string) (fuel : nat) (selves : list atomic_lock) :
  Forall (fun self => lock_directory self = d /\ wait self = false) selves ->
  forall w,
    is_Some (fs w !! d) ->
    exists w',
      enter_each (S fuel) selves w = Some (map contention selves, w')
      /\ fs w' = fs w.
Proof.
  induction 1 as [|self rest [Hd Hwait] _ IH]; intros w Hfs.
  - exists w. split; reflexivity.
  - cbn [enter_each map]. unfold __enter__.
    rewrite loop_contended by (rewrite ?Hd; assumption).
    destruct (IH (log (EvMakedirs (lock_directory self)
                                  (Raise (OSError EEXIST))) w) Hfs)
      as (w' & -> & Hsame).
    exists w'. split; [reflexivity | exact Hsame].
Qed.

(** When the creation of the marker is refused, it is refused to all. *)
Lemma enter_each_refused (d : string) (c : cause) (fuel : nat)
    (selves : list atomic_lock) :
  Forall (fun self => lock_directory self = d /\ wait self = false) selves ->
  forall w,
    fs w !! d = None -> faults w !! d = Some c ->
    exists w',
      enter_each (S fuel) selves w
      = Some (map (fun _ => Raise (OSError (Errno c))) selves, w')
      /\ fs w' = fs w.
Proof.
  induction 1 as [|self rest [Hd Hwait] _ IH]; intros w Hfs Hfault.
  - exists w. split; reflexivity.
  - cbn [enter_each map]. unfold __enter__.
    rewrite (loop_refused _ _ _ _ c) by (rewrite ?Hd; assumption).
    destruct (IH (log (EvMakedirs (lock_directory self)
                                  (Raise (OSError (Errno c)))) w) Hfs Hfault)
      as (w' & -> & Hsame).
    exists w'. split; [reflexivity | exact Hsame].
Qed.

Lemma no_success_contention (selves : list atomic_lock) :
  filter (fun r => succeeded r = true) (map contention selves) = [].
Proof.
  induction selves as [|self rest IH]; [reflexivity|].
  cbn [map]. rewrite filter_cons_False; [exact IH|]. simpl. discriminate.
Qed.

Lemma no_success_refused (c : cause) (selves : list atomic_lock) :
  filter (fun r => succeeded r = true)
         (map (fun _ : atomic_lock => Raise (OSError (Errno c))) selves) = [].
Proof.
  induction selves as [|self rest IH]; [reflexivity|].
  cbn [map]. rewrite filter_cons_False; [exact IH|]. simpl. discriminate.
Qed.

(** [__enter__] returns exactly when its own call of [makedirs] created
    the marker: with no waiting this is the one call it makes. *)
Lemma enter_iff_created (self : atomic_lock) (fuel : nat) (v v1 : world) :
  wait self = false ->
  __enter__ (S fuel) self v = Some (Return tt, v1) <->
  makedirs (lock_directory self) v = (Return true, v1).
Proof.
  intros Hwait. unfold __enter__. cbn [while_True]. rewrite Hwait.
  destruct (makedirs (lock_directory self) v) as [[[]|e] u]; split;
    congruence.
Qed.

(** C1. Processes whose handles have the same marker path call
    [__enter__] without waiting, all at the same time; their calls of
    [os.makedirs] take effect one after the other, in the order of the
    list, which is arbitrary. Each call returns if and only if its own
    [makedirs] created the marker, which requires that nothing was at the
    marker path. All calls come back, and at most one of them returns.
    When the marker path is free at the start and the marker can be
    created, exactly one call returns, the first to take its step; every
    other call raises [ResourceLockedException], and the marker is there
    at the end. *)
Theorem C1_one_winner (d : string) (selves : list atomic_lock) (w : world)
    (fuel : nat) :
  Forall (fun self => lock_directory self = d /\ wait self = false) selves ->
  (forall self v v1,
     wait self = false ->
     (__enter__ (S fuel) self v = Some (Return tt, v1) <->
      makedirs (lock_directory self) v = (Return true, v1))
     /\ (makedirs (lock_directory self) v = (Return true, v1) <->
         fs v !! lock_directory self = None
         /\ faults v !! lock_directory self = None
         /\ v1 = created self v))
  /\ (exists rs w',
        enter_each (S fuel) selves w = Some (rs, w')
        /\ length rs = length selves
        /\ length (filter (fun r => succeeded r = true) rs) <= 1)
  /\ (fs w !! d = None -> faults w !! d = None ->
      forall first rest,
        selves = first :: rest ->
        exists w',
          enter_each (S fuel) selves w
          = Some (Return tt :: map contention rest, w')
          /\ length (filter (fun r => succeeded r = true)
                            (Return tt :: map contention rest)) = 1
          /\ fs w' = <[d := Dir]> (fs w)).
Proof.
  intros Hall. split; [|split].
  - intros self v v1 Hwait. split.
    + by apply enter_iff_created.
    + apply makedirs_true_iff.
  - destruct (fs w !! d) as [x|] eqn:Hfs.
    + destruct (enter_each_taken d fuel selves Hall w) as (w' & Hrun & _);
        [by rewrite Hfs|].
      exists (map contention selves), w'. split; [exact Hrun|].
      rewrite length_map, no_success_contention. simpl. split; lia.
    + destruct (faults w !! d) as [c|] eqn:Hfault.
      * destruct (enter_each_refused d c fuel selves Hall w Hfs Hfault)
          as (w' & Hrun & _).
        eexists _, w'. split; [exact Hrun|].
        rewrite length_map, no_success_refused. simpl. split; lia.
      * destruct Hall as [|first rest [Hd Hwait] Hrest].
        { exists [], w. repeat split; simpl; lia. }
        cbn [enter_each]. unfold __enter__.
        rewrite loop_created by (rewrite ?Hd; assumption).
        destruct (enter_each_taken d fuel rest Hrest
                    (log (EvMakedirs (lock_directory first) (Return tt))
                       (set_fs (<[lock_directory first := Dir]> (fs w)) w)))
          as (w' & -> & _).
        { cbn [fs log set_fs]. rewrite Hd, lookup_insert_eq. eauto. }
        eexists _, w'. split; [reflexivity|].
        rewrite filter_cons_True by reflexivity.
        cbn [length]. rewrite length_map, no_success_contention.
        simpl. split; lia.
  - intros Hfs Hfault first rest ->.
    inversion Hall as [|? ? [Hd Hwait] Hrest]; subst.
    cbn [enter_each]. unfold __enter__.
    rewrite loop_created by assumption.
    destruct (enter_each_taken (lock_directory first) fuel rest Hrest
                (log (EvMakedirs (lock_directory first) (Return tt))
                   (set_fs (<[lock_directory first := Dir]> (fs w)) w)))
      as (w' & -> & Hsame).
    { cbn [fs log set_fs]. rewrite lookup_insert_eq. eauto. }
    exists w'. split; [reflexivity|]. split.
    + rewrite filter_cons_True by reflexivity.
      cbn [length]. by rewrite no_success_contention.
    + rewrite Hsame. reflexivity.
Qed.

(** Three processes race for the repository lock. *)
Lemma C1_witness :
  exists w',
    enter_each 1 [repo_lock false; repo_lock false; repo_lock false] machine
    = Some ([Return tt; contention (repo_lock false);
             contention (repo_lock false)], w')
    /\ fs w' !! repo_marker = Some Dir.
Proof.
  destruct (C1_one_winner repo_marker
              [repo_lock false; repo_lock false; repo_lock false] machine 0)
    as (_ & _ & Hrace).
  - repeat constructor.
  - destruct Hrace with (first := repo_lock false)
                        (rest := [repo_lock false; repo_lock false])
      as (w' & Hrun & _ & Hfs).
    + vm_compute. reflexivity.
    + vm_compute. reflexivity.
    + reflexivity.
    + exists w'. split; [exact Hrun|].
      rewrite Hfs. apply lookup_insert_eq.
Defined.

(* ===================================================================== *)
(** ** More on release and the [with] statement                          *)
(* ===================================================================== *)

(** X2. [__exit__] does not ask who created the marker: when a marker
    directory exists, the [__exit__] of any handle with that marker path
    removes it, and the next [__enter__] on that path, by any handle and in
    either mode, returns at its first attempt and holds the lock. *)
Theorem X2_release_then_acquire (leaving next : atomic_lock) (w : world)
    (fuel : nat) :
  lock_directory leaving = lock_directory next ->
  fs w !! lock_directory leaving = Some Dir ->
  faults w !! lock_directory leaving = None ->
  exists w1 w2,
    __exit__ leaving w = (Return tt, w1)
    /\ fs w1 !! lock_directory leaving = None
    /\ __enter__ (S fuel) next w1 = Some (Return tt, w2)
    /\ fs w2 = fs w.
Proof.
  intros Hsame Hdir Hfault.
  rewrite exit_directory by assumption.
  eexists _, _. split; [reflexivity|].
  assert (Hgone : fs (log (EvRmdir (lock_directory leaving) (Return tt))
                        (set_fs (delete (lock_directory leaving) (fs w)) w))
                  !! lock_directory next = None)
    by (cbn [fs log set_fs]; rewrite <- Hsame; apply lookup_delete_eq).
  split; [cbn [fs log set_fs]; apply lookup_delete_eq|].
  unfold __enter__. rewrite loop_created;
    [|exact Hgone | cbn [faults log set_fs]; by rewrite <- Hsame].
  split; [reflexivity|].
  cbn [fs log set_fs]. rewrite <- Hsame.
  rewrite insert_delete_eq. by apply insert_id.
Qed.

Lemma X2_witness :
  fs machine_locked !! repo_marker = Some Dir
  /\ exists w1 w2,
       __exit__ (repo_lock false) machine_locked = (Return tt, w1)
       /\ __enter__ 1 (repo_lock true) w1 = Some (Return tt, w2).
Proof.
  assert (Hdir : fs machine_locked !! repo_marker = Some Dir)
    by (vm_compute; reflexivity).
  split; [exact Hdir|].
  destruct (X2_release_then_acquire (repo_lock false) (repo_lock true)
              machine_locked 0 eq_refl Hdir)
    as (w1 & w2 & Hexit & _ & Henter & _).
  - vm_compute. reflexivity.
  - exists w1, w2. split; assumption.
Defined.

(** X3. The lock is released on every way out of the block: when
    [__enter__] has created the marker and the block leaves the marker
    path alone, the [with] statement ends with the outcome of the block,
    its value or its exception (which is not swallowed), and no marker is
    left. *)
Theorem X3_with_releases_on_every_exit {A : Type} (self : atomic_lock)
    (block : world -> result A * world) (w : world) (fuel : nat) :
  fs w !! lock_directory self = None ->
  faults w !! lock_directory self = None ->
  (forall v, fs (snd (block v)) !! lock_directory self
             = fs v !! lock_directory self) ->
  exists w3,
    with_statement (S fuel) self block w
    = Some (fst (block (created self w)), w3)
    /\ fs w3 !! lock_directory self = None.
Proof.
  intros Hfs Hfault Hblock. unfold with_statement, __enter__.
  rewrite loop_created by assumption. fold (created self w).
  destruct (block (created self w)) as [r w2] eqn:Hrun.
  assert (Hheld : fs w2 !! lock_directory self = Some Dir).
  { change w2 with (snd (r, w2)). rewrite <- Hrun, Hblock.
    unfold created. cbn [fs log set_fs]. apply lookup_insert_eq. }
  rewrite exit_directory by assumption.
  eexists. split; [reflexivity|].
  cbn [fs log set_fs]. apply lookup_delete_eq.
Qed.

Lemma X3_witness :
  exists w3,
    with_statement 1 (repo_lock true) failing_block machine
    = Some (Raise (OSError (Errno EIO)), w3)
    /\ fs w3 !! repo_marker = None.
Proof.
  destruct (X3_with_releases_on_every_exit (repo_lock true) failing_block
              machine 0) as (w3 & Hwith & Hgone).
  - vm_compute. reflexivity.
  - vm_compute. reflexivity.
  - intros v. unfold failing_block. cbn [snd fs set_fs].
    apply lookup_insert_ne. discriminate.
  - exists w3. split; [exact Hwith | exact Hgone].
Defined.

(** X4. When a handle that does not wait finds the marker path taken, the
    [with] statement raises [ResourceLockedException] and runs neither the
    block nor [__exit__]: the marker of the holder stays, and the world is
    the one after the refused [os.makedirs]. *)
Theorem X4_contended_with_runs_nothing {A : Type} (self : atomic_lock)
    (block : world -> result A * world) (w : world) (fuel : nat) :
  wait self = false ->
  is_Some (fs w !! lock_directory self) ->
  with_statement (S fuel) self block w
  = Some (Raise (ResourceLockedException (locked_message (pathname self))),
          log (EvMakedirs (lock_directory self) (Raise (OSError EEXIST))) w)
  /\ fs (log (EvMakedirs (lock_directory self) (Raise (OSError EEXIST))) w)
     = fs w.
Proof.
  intros Hwait Hfs. unfold with_statement, __enter__.
  rewrite loop_contended by assumption. split; reflexivity.
Qed.

Lemma X4_witness :
  is_Some (fs machine_locked !! repo_marker)
  /\ exists w1,
       with_statement 1 (repo_lock false) failing_block machine_locked
       = Some (Raise (ResourceLockedException
                        "Failed to lock /data/repo for exclusive access!"), w1)
       /\ fs w1 = fs machine_locked.
Proof.
  assert (Htaken : is_Some (fs machine_locked !! repo_marker))
    by (exists Dir; vm_compute; reflexivity).
  split; [exact Htaken|].
  destruct (X4_contended_with_runs_nothing (repo_lock false) failing_block
              machine_locked 0 eq_refl Htaken) as [Hwith Hsame].
  eexists. split; [exact Hwith | exact Hsame].
Defined.

(** X5. A waiting [with] statement on a lock that its holder releases
    during sleep number [n + 1]: the statement is not through before the
    release; it enters after [n + 1] rounds, that is, after a wait of
    [100 * (n + 1)] milliseconds, which is more than nothing; and when the
    block leaves the marker path alone, the statement returns and no
    marker is left. *)
Theorem X5_waiting_with_after_release (self : atomic_lock)
    (block : world -> world) (w : world) (n extra : nat)
    (rest : list (list action)) :
  wait self = true ->
  fs w !! lock_directory self = Some Dir ->
  faults w !! lock_directory self = None ->
  others w = (repeat [] n ++ [OtherRmdir (lock_directory self)] :: rest)%list ->
  (forall v, fs (block v) !! lock_directory self = fs v !! lock_directory self) ->
  with_atomic_lock (S n) self block w = None
  /\ exists w1 w2,
       __enter__ (S (S n) + extra) self w = Some (Return tt, w1)
       /\ clock w1 = (clock w + 100 * N.of_nat (S n))%N
       /\ (clock w < clock w1)%N
       /\ with_atomic_lock (S (S n) + extra) self block w = Some (Return tt, w2)
       /\ fs w2 !! lock_directory self = None.
Proof.
  intros Hwait Hdir Hfault Hothers Hblock.
  destruct (loop_released self (clock w) Hwait n extra w rest Hdir Hfault Hothers)
    as [Hyes Hno].
  unfold with_atomic_lock, __enter__. rewrite Hno, Hyes.
  split; [reflexivity|].
  set (w1 := created self (rounds (S n) self (clock w) w)).
  assert (Hclock : clock w1 = (clock w + 100 * N.of_nat (S n))%N).
  { subst w1.
    change (clock (created self (rounds (S n) self (clock w) w)))
      with (clock (rounds (S n) self (clock w) w)).
    apply rounds_clock. }
  assert (Hheld : fs (block w1) !! lock_directory self = Some Dir).
  { rewrite Hblock. subst w1. unfold created. cbn [fs log set_fs].
    apply lookup_insert_eq. }
  exists w1. rewrite exit_directory by assumption.
  eexists. split; [reflexivity|]. split; [exact Hclock|].
  split; [rewrite Hclock; lia|]. split; [reflexivity|].
  cbn [fs log set_fs]. apply lookup_delete_eq.
Qed.

Lemma X5_witness :
  with_atomic_lock 3 (repo_lock true) (fun v => v) machine_released_later = None
  /\ exists w2,
       with_atomic_lock 4 (repo_lock true) (fun v => v) machine_released_later
       = Some (Return tt, w2)
       /\ fs w2 !! repo_marker = None.
Proof.
  destruct (X5_waiting_with_after_release (repo_lock true) (fun v => v)
              machine_released_later 2 0 [] eq_refl)
    as (Hnot & w1 & w2 & _ & _ & _ & Hwith & Hgone).
  - vm_compute. reflexivity.
  - vm_compute. reflexivity.
  - reflexivity.
  - reflexivity.
  - split; [exact Hnot|]. exists w2. split; [exact Hwith | exact Hgone].
Defined.

(* ===================================================================== *)
(** ** Mutual exclusion                                                  *)
(* ===================================================================== *)

(** The loop of [__enter__] is its body, again and again. *)
Lemma loop_iteration (self : atomic_lock) (started : N) (w : world) (fuel : nat) :
  while_True (S fuel) self started w
  = match iteration self started w with
    | (Entered, w1) => Some (Return tt, w1)
    | (Refused e, w1) => Some (Raise e, w1)
    | (Again, w1) => while_True fuel self started w1
    end.
Proof.
  unfold iteration. cbn [while_True].
  destruct (makedirs (lock_directory self) w) as [[[]|e] w1];
    try reflexivity.
  destruct (wait self); reflexivity.
Qed.

(** What one passage does to the marker path. *)
Lemma iteration_marker (self : atomic_lock) (started : N) (w : world) :
  undisturbed (lock_directory self) w ->
  forall out w1,
    iteration self started w = (out, w1) ->
    undisturbed (lock_directory self) w1
    /\ (out = Entered ->
        fs w !! lock_directory self = None
        /\ fs w1 !! lock_directory self = Some Dir)
    /\ (out <> Entered ->
        fs w1 !! lock_directory self = fs w !! lock_directory self).
Proof.
  intros Hquiet out w1. unfold iteration.
  destruct (fs w !! lock_directory self) as [x|] eqn:Hfs.
  - rewrite makedirs_present by eauto.
    destruct (wait self).
    + intros [= <- <-].
      destruct (after_round_undisturbed self started w _ Hquiet) as [Hsame Hq].
      split; [exact Hq|]. split; [discriminate|]. intros _.
      fold (after_round self started w). by rewrite Hsame.
    + intros [= <- <-]. split; [exact Hquiet|]. split; [discriminate|].
      intros _. cbn [fs log]. exact Hfs.
  - destruct (faults w !! lock_directory self) as [c|] eqn:Hfault.
    + rewrite (makedirs_refused _ _ c) by assumption.
      intros [= <- <-]. split; [exact Hquiet|]. split; [discriminate|].
      intros _. cbn [fs log]. exact Hfs.
    + rewrite makedirs_created by assumption.
      intros [= <- <-]. split; [exact Hquiet|]. split; [|congruence].
      intros _. split; [reflexivity|]. cbn [fs log set_fs].
      apply lookup_insert_eq.
Qed.

Lemma inside_count_cons (p : process) (ps : list process) :
  inside_count (p :: ps) = inside_weight p + inside_count ps.
Proof.
  unfold inside_count, inside_weight.
  destruct (is_inside p) eqn:Hp.
  - rewrite filter_cons_True by assumption. reflexivity.
  - rewrite filter_cons_False by congruence. reflexivity.
Qed.

Lemma inside_count_app (ps qs : list process) :
  inside_count (ps ++ qs) = inside_count ps + inside_count qs.
Proof.
  unfold inside_count. by rewrite filter_app, length_app.
Qed.

(** Replacing one process changes the count by the difference of the two. *)
Lemma inside_count_insert (ps : list process) (i : nat) (p p' : process) :
  ps !! i = Some p ->
  inside_count (<[i := p']> ps) + inside_weight p
  = inside_count ps + inside_weight p'.
Proof.
  intros Hp.
  rewrite insert_take_drop by (eapply lookup_lt_Some; eassumption).
  rewrite <- (take_drop_middle ps i p Hp) at 3.
  rewrite !inside_count_app, !inside_count_cons. lia.
Qed.

Lemma step_exclusive (d : string) (block : world -> world)
    (st : list process * world) (i : nat) :
  keeps_marker d block -> exclusive d st -> exclusive d (step block st i).
Proof.
  intros Hblock (Hall & Hquiet & Hcount). destruct st as [ps w].
  unfold step. cbn [fst snd] in *.
  destruct (ps !! i) as [p|] eqn:Hp; [|by repeat split].
  assert (Hd : lock_directory (handle p) = d).
  { rewrite Forall_forall in Hall. apply Hall.
    eapply list_elem_of_lookup_2. eassumption. }
  assert (Hkeep : forall s, Forall (fun q => lock_directory (handle q) = d)
                              (<[i := Process (handle p) s]> ps)).
  { intros s. apply Forall_insert; [exact Hall | exact Hd]. }
  unfold step_process.
  destruct p as [self [started| | |e]]; cbn [stage_of handle] in *.
  - (* in the loop of __enter__ *)
    destruct (iteration self started w) as [out w1] eqn:Hit.
    rewrite <- Hd in Hquiet.
    destruct (iteration_marker self started w Hquiet out w1 Hit)
      as (Hq & Hin & Hout).
    rewrite Hd in Hq, Hin, Hout.
    destruct out as [|e|]; unfold exclusive; cbn [fst snd].
    + destruct Hin as [Hwas Hnow]; [reflexivity|].
      split; [apply Hkeep|]. split; [exact Hq|]. right.
      destruct Hcount as [[Hzero _]|[_ Hdir]]; [|congruence].
      split; [|exact Hnow].
      pose proof (inside_count_insert ps i _ (Process self Inside) Hp) as Hc.
      unfold inside_weight, is_inside in Hc. cbn [stage_of] in Hc. lia.
    + split; [apply Hkeep|]. split; [exact Hq|].
      rewrite Hout by discriminate.
      pose proof (inside_count_insert ps i _ (Process self (Failed e)) Hp) as Hc.
      unfold inside_weight, is_inside in Hc. cbn [stage_of] in Hc.
      replace (inside_count (<[i:=Process self (Failed e)]> ps))
        with (inside_count ps) by lia.
      exact Hcount.
    + split; [rewrite list_insert_id by assumption; exact Hall|].
      split; [exact Hq|].
      rewrite Hout by discriminate.
      rewrite list_insert_id by assumption. exact Hcount.
  - (* inside the block *)
    destruct (Hblock w) as [Hsame Hoth].
    pose proof (inside_count_insert ps i _ (Process self Left) Hp) as Hc.
    unfold inside_weight, is_inside in Hc. cbn [stage_of] in Hc.
    destruct Hcount as [[Hzero _]|[Hone Hdir]]; [lia|].
    assert (Hheld : fs (block w) !! lock_directory self = Some Dir)
      by (rewrite Hd, Hsame; exact Hdir).
    rewrite exit_directory by assumption. unfold exclusive. cbn [fst snd].
    split; [apply Hkeep|]. split.
    + unfold undisturbed in *. cbn [others log set_fs]. by rewrite Hoth.
    + left. split; [lia|]. cbn [fs log set_fs]. rewrite Hd.
      apply lookup_delete_eq.
  - rewrite list_insert_id by assumption. by repeat split.
  - rewrite list_insert_id by assumption. by repeat split.
Qed.

Lemma run_exclusive (d : string) (block : world -> world) (schedule : list nat) :
  keeps_marker d block ->
  forall st, exclusive d st -> exclusive d (run block schedule st).
Proof.
  intros Hblock. unfold run.
  induction schedule as [|i rest IH]; intros st Hst; [exact Hst|].
  cbn [fold_left]. apply IH. by apply step_exclusive.
Qed.

(** X6. Mutual exclusion. Processes run [with atomic_lock(...): block] on
    handles with the same marker path, in either mode, and take their
    steps (a passage through the loop of [__enter__], or the block followed
    by [__exit__]) in any order. When at the start nobody is inside and
    nothing is at the marker path, and neither the block nor anybody else
    touches the marker path, then at every moment at most one process is
    inside its block; somebody is inside exactly when the marker directory
    exists. *)
Theorem X6_mutual_exclusion (d : string) (block : world -> world)
    (ps : list process) (w : world) (schedule : list nat) :
  Forall (fun p => lock_directory (handle p) = d) ps ->
  inside_count ps = 0 ->
  fs w !! d = None ->
  undisturbed d w ->
  keeps_marker d block ->
  inside_count (fst (run block schedule (ps, w))) <= 1
  /\ (inside_count (fst (run block schedule (ps, w))) = 1
      <-> fs (snd (run block schedule (ps, w))) !! d = Some Dir)
  /\ (inside_count (fst (run block schedule (ps, w))) = 0
      <-> fs (snd (run block schedule (ps, w))) !! d = None).
Proof.
  intros Hall Hzero Hfs Hquiet Hblock.
  destruct (run_exclusive d block schedule Hblock (ps, w))
    as (_ & _ & Hcount).
  { split; [exact Hall|]. split; [exact Hquiet|]. left. by split. }
  destruct Hcount as [[Hc Hm]|[Hc Hm]]; rewrite Hc, Hm;
    repeat split; try lia; try congruence; discriminate.
Qed.

Lemma X6_witness :
  inside_count (fst (run (fun v => v) [0; 1; 2] (pool, machine))) = 1
  /\ map stage_of (fst (run (fun v => v) [0; 1; 2; 0; 1; 1] (pool, machine)))
     = [Left; Left;
        Failed (ResourceLockedException
                  "Failed to lock /data/repo for exclusive access!")].
Proof.
  destruct (X6_mutual_exclusion repo_marker (fun v => v) pool machine [0; 1; 2])
    as (_ & Hone & _).
  - repeat constructor.
  - reflexivity.
  - vm_compute. reflexivity.
  - constructor.
  - intros v. split; reflexivity.
  - split; [apply Hone; vm_compute; reflexivity|].
    vm_compute. reflexivity.
Defined.

(* ===================================================================== *)
(** ** The fingerprint and the real path                                 *)
(* ===================================================================== *)

Lemma hexdigit_is_hex (n : N) : is_hex (hashlib.hexdigit n) = true.
Proof.
  unfold hashlib.hexdigit. generalize (N.to_nat n). intros m.
  do 16 (destruct m as [|m]; [reflexivity|]).
  destruct m; reflexivity.
Qed.

Lemma hex32_is_hex (x : N) :
  Forall (fun c => is_hex c = true) (hashlib.hex32 x).
Proof.
  unfold hashlib.hex32. apply Forall_map, Forall_forall.
  intros i _. apply hexdigit_is_hex.
Qed.


Lemma append_cons (c : ascii) (s t : string) :
  String c s ++ t = String c (s ++ t).
Proof. reflexivity. Qed.

Lemma append_nil_r (s : string) : s ++ "" = s.
Proof.
  induction s as [|c s IH]; [reflexivity|]. by rewrite append_cons, IH.
Qed.

Lemma append_assoc (a b c : string) : (a ++ b) ++ c = a ++ b ++ c.
Proof.
  induction a as [|x a IH]; [reflexivity|]. by rewrite !append_cons, IH.
Qed.

Lemma sep_free_snoc (cur : string) (c : ascii) :
  sep_free cur -> c <> os.path.sep -> sep_free (cur ++ String c "").
Proof.
  unfold sep_free. intros Hcur Hc.
  rewrite list_ascii_of_string_append, Forall_app. split; [exact Hcur|].
  repeat constructor. exact Hc.
Qed.

(** The parts that [split] yields hold no separator. *)
Lemma split_sep_parts (s cur : string) :
  sep_free cur -> Forall sep_free (os.path.split_sep cur s).
Proof.
  revert cur. induction s as [|c s IH]; intros cur Hcur; cbn [os.path.split_sep].
  - repeat constructor. exact Hcur.
  - destruct (Ascii.eqb_spec c os.path.sep) as [->|Hne].
    + constructor; [exact Hcur|]. apply IH. constructor.
    + apply IH. by apply sep_free_snoc.
Qed.

(** Splitting runs through a part without separator in one go. *)
Lemma split_sep_through (a : string) :
  sep_free a ->
  forall cur rest,
    os.path.split_sep cur (a ++ rest) = os.path.split_sep (cur ++ a) rest.
Proof.
  induction a as [|c a IH]; intros Hfree cur rest.
  - by rewrite append_nil_r.
  - inversion Hfree as [|? ? Hc Ha]; subst.
    rewrite append_cons. cbn [os.path.split_sep].
    destruct (Ascii.eqb_spec c os.path.sep) as [->|_]; [contradiction|].
    rewrite (IH Ha), append_assoc. reflexivity.
Qed.

(** Splitting what was joined gives the parts back. *)
Lemma split_sep_concat (comps : list string) :
  Forall sep_free comps -> comps <> [] ->
  os.path.split_sep "" (String.concat "/" comps) = comps.
Proof.
  induction 1 as [|c comps Hc Hrest IH]; intros Hne; [contradiction|].
  destruct comps as [|c' comps].
  - cbn [String.concat]. rewrite <- (append_nil_r c) at 1.
    rewrite split_sep_through by assumption. reflexivity.
  - change (String.concat "/" (c :: c' :: comps))
      with (c ++ "/" ++ String.concat "/" (c' :: comps)).
    rewrite split_sep_through by assumption.
    change (os.path.split_sep ("" ++ c)
              ("/" ++ String.concat "/" (c' :: comps)))
      with (c :: os.path.split_sep "" (String.concat "/" (c' :: comps))).
    rewrite IH by discriminate. reflexivity.
Qed.

Lemma walk_component (stack : list string) (name : string) :
  component name -> os.path.walk stack name = name :: stack.
Proof.
  intros (_ & Hempty & Hdot & Hdots). unfold os.path.walk.
  apply eqb_neq in Hempty, Hdot, Hdots.
  by rewrite Hempty, Hdot, Hdots.
Qed.

Lemma walk_components (comps stack : list string) :
  Forall component comps ->
  fold_left os.path.walk comps stack = (rev comps ++ stack)%list.
Proof.
  intros Hall. revert stack.
  induction Hall as [|c comps Hc _ IH]; intros stack; [reflexivity|].
  cbn [fold_left rev]. rewrite walk_component by assumption.
  rewrite IH, <- app_assoc. reflexivity.
Qed.

(** The walk keeps nothing but components. *)
Lemma walk_keeps (stack : list string) (name : string) :
  sep_free name -> Forall component stack ->
  Forall component (os.path.walk stack name).
Proof.
  intros Hfree Hstack. unfold os.path.walk.
  destruct (String.eqb_spec name "") as [|Hempty]; [exact Hstack|].
  destruct (String.eqb_spec name ".") as [|Hdot]; [exact Hstack|].
  destruct (String.eqb_spec name "..") as [|Hdots]; cbn [orb].
  - destruct Hstack; [constructor | assumption].
  - constructor; [|exact Hstack]. by repeat split.
Qed.

Lemma walks_keep (parts stack : list string) :
  Forall sep_free parts -> Forall component stack ->
  Forall component (fold_left os.path.walk parts stack).
Proof.
  intros Hparts. revert stack.
  induction Hparts as [|p parts Hp _ IH]; intros stack Hstack; [exact Hstack|].
  cbn [fold_left]. apply IH. by apply walk_keeps.
Qed.

(** The shape of every real path: a separator and components joined by
    separators. *)
Lemma realpath_shape (p : string) (w : world) :
  exists comps,
    Forall component comps
    /\ os.path.realpath p w = "/" ++ String.concat "/" comps.
Proof.
  unfold os.path.realpath.
  exists (rev (fold_left os.path.walk
                 (os.path.split_sep ""
                    (if os.path.isabs p then p else os.path.join (cwd w) p))
                 [])).
  split; [|reflexivity].
  apply Forall_rev, walks_keep; [|constructor].
  apply split_sep_parts. constructor.
Qed.

(** A path of that shape is its own real path. *)
Lemma realpath_of_shape (comps : list string) (w : world) :
  Forall component comps ->
  os.path.realpath ("/" ++ String.concat "/" comps) w
  = "/" ++ String.concat "/" comps.
Proof.
  intros Hall. unfold os.path.realpath.
  change (os.path.isabs ("/" ++ String.concat "/" comps)) with true.
  cbn iota.
  change (os.path.split_sep "" ("/" ++ String.concat "/" comps))
    with ("" :: os.path.split_sep "" (String.concat "/" comps)).
  destruct comps as [|c comps]; [reflexivity|].
  rewrite split_sep_concat;
    [|eapply Forall_impl; [exact Hall | by intros ? (? & _)] | discriminate].
  change (fold_left os.path.walk ("" :: c :: comps) [])
    with (fold_left os.path.walk (c :: comps) []).
  rewrite walk_components by assumption.
  by rewrite app_nil_r, rev_involutive.
Qed.

(** The characters of a real path are those of the path walked along,
    and separators: what holds of these holds of the real path. *)
Section Characters.

Variable Q : ascii -> Prop.







End Characters.





(* ===================================================================== *)
(** ** OrderedObject: equality, hashing and order                        *)
(* ===================================================================== *)

Section OrderedObjectFacts.

Context {object K : Type}.
Variables (type : object -> string) (isinstance : object -> bool).
Variables (_key : object -> outcome K).
Variables (key_eq key_lt : K -> K -> bool).
Variables (hash_type : string -> Z) (hash_key : K -> option Z).

(** [__eq__] answers [True] exactly for objects of one class whose keys
    [==] finds equal. *)
Lemma eq_true_iff (a b : object) :
  OrderedObject.__eq__ type _key key_eq a b = Value true <->
  type a = type b
  /\ exists ka kb, _key a = Value ka /\ _key b = Value kb
                   /\ key_eq ka kb = true.
Proof.
  unfold OrderedObject.__eq__.
  destruct (String.eqb_spec (type a) (type b)) as [Ht|Ht].
  - destruct (_key a) as [ka| |], (_key b) as [kb| |]; split;
      try discriminate;
      try (intros (_ & ? & ? & ? & ? & _); discriminate).
    + intros [= Hk]. eauto 6.
    + intros (_ & ? & ? & [= ->] & [= ->] & Hk). by rewrite Hk.
  - split; [discriminate | intros [? _]; contradiction].
Qed.

(** X9. [__eq__] answers [True] exactly when the two objects have the
    same class and keys that [==] finds equal. It is as reflexive,
    symmetric and transitive as [==] is on the keys, and no more: an
    object whose key is not equal to itself, as [float('nan')] is not, is
    not equal to itself. Objects of different classes are never equal,
    whatever their keys, and comparing them does not call [_key]: no
    [NotImplementedError] even when a class leaves [_key] undefined. *)
Theorem X9_eq_is_same_class_and_key (a b c : object) :
  (OrderedObject.__eq__ type _key key_eq a b = Value true <->
   type a = type b
   /\ exists ka kb, _key a = Value ka /\ _key b = Value kb
                    /\ key_eq ka kb = true)
  /\ (forall k, _key a = Value k ->
        OrderedObject.__eq__ type _key key_eq a a = Value (key_eq k k))
  /\ ((forall k1 k2, key_eq k1 k2 = key_eq k2 k1) ->
      (OrderedObject.__eq__ type _key key_eq a b = Value true ->
       OrderedObject.__eq__ type _key key_eq b a = Value true)
      /\ ((exists k, _key a = Value k) -> (exists k, _key b = Value k) ->
          OrderedObject.__eq__ type _key key_eq a b
          = OrderedObject.__eq__ type _key key_eq b a))
  /\ ((forall k1 k2 k3, key_eq k1 k2 = true -> key_eq k2 k3 = true ->
                        key_eq k1 k3 = true) ->
      OrderedObject.__eq__ type _key key_eq a b = Value true ->
      OrderedObject.__eq__ type _key key_eq b c = Value true ->
      OrderedObject.__eq__ type _key key_eq a c = Value true)
  /\ (type a <> type b ->
      OrderedObject.__eq__ type _key key_eq a b = Value false).
Proof.
  split; [apply eq_true_iff|]. split; [|split; [|split]].
  - intros k Hk. unfold OrderedObject.__eq__.
    by rewrite String.eqb_refl, Hk.
  - intros Hsym. split.
    + rewrite !eq_true_iff. intros (Ht & ka & kb & Ha & Hb & Hk).
      split; [done|]. exists kb, ka. by rewrite Hsym.
    + intros [ka Ha] [kb Hb]. unfold OrderedObject.__eq__.
      rewrite (eqb_sym (type b) (type a)), Ha, Hb, (Hsym ka kb).
      reflexivity.
  - intros Htrans. rewrite !eq_true_iff.
    intros (Hab & ka & kb & Ha & Hb & Hk) (Hbc & kb' & kc & Hb' & Hc & Hk').
    split; [congruence|]. exists ka, kc. repeat split; try assumption.
    rewrite Hb in Hb'. injection Hb' as <-. eauto.
  - intros Hne. unfold OrderedObject.__eq__.
    apply eqb_neq in Hne. by rewrite Hne.
Qed.

(** X10. [__hash__] has a value exactly when the class defines [_key] and
    the key can be hashed; it raises the [TypeError] of [hash] for a key
    that cannot, and [NotImplementedError] without [_key]. Where keys that
    [==] finds equal hash alike, as Python asks of every type, objects that
    [__eq__] finds equal have the same [__hash__], as sets and
    dictionaries require. *)
Theorem X10_equal_objects_hash_alike (a b : object) :
  (forall h,
     OrderedObject.__hash__ type _key hash_type hash_key a = Value h <->
     exists k hk, _key a = Value k /\ hash_key k = Some hk
                  /\ h = Z.lxor (hash_type (type a)) hk)
  /\ (forall k, _key a = Value k -> hash_key k = None ->
        OrderedObject.__hash__ type _key hash_type hash_key a = TypeError)
  /\ (_key a = NotImplementedError ->
      OrderedObject.__hash__ type _key hash_type hash_key a
      = NotImplementedError)
  /\ ((forall k1 k2, key_eq k1 k2 = true -> hash_key k1 = hash_key k2) ->
      OrderedObject.__eq__ type _key key_eq a b = Value true ->
      OrderedObject.__hash__ type _key hash_type hash_key a
      = OrderedObject.__hash__ type _key hash_type hash_key b).
Proof.
  split; [|split; [|split]].
  - intros h. unfold OrderedObject.__hash__.
    destruct (_key a) as [k| |]; [|split; [discriminate|]..].
    + destruct (hash_key k) as [hk|] eqn:Hk; split.
      * intros [= <-]. eauto 6.
      * intros (k' & hk' & [= <-] & Hk' & ->). congruence.
      * discriminate.
      * intros (k' & hk' & [= <-] & Hk' & _). congruence.
    + by intros (? & ? & ? & _).
    + by intros (? & ? & ? & _).
  - intros k Ha Hk. unfold OrderedObject.__hash__. by rewrite Ha, Hk.
  - intros Ha. unfold OrderedObject.__hash__. by rewrite Ha.
  - intros Hhash Heq.
    apply eq_true_iff in Heq as (Ht & ka & kb & Ha & Hb & Hk).
    unfold OrderedObject.__hash__.
    by rewrite Ha, Hb, Ht, (Hhash _ _ Hk).
Qed.

(** The order of the keys is a strict total order, and [==] on the keys
    goes with it. *)
Hypothesis key_lt_irrefl : forall k, key_lt k k = false.
Hypothesis key_lt_trans :
  forall k1 k2 k3, key_lt k1 k2 = true -> key_lt k2 k3 = true ->
                   key_lt k1 k3 = true.
Hypothesis key_lt_total :
  forall k1 k2,
    key_lt k1 k2 = true \/ key_eq k1 k2 = true \/ key_lt k2 k1 = true.
Hypothesis key_eq_lt :
  forall k1 k2, key_eq k1 k2 = true ->
                key_lt k1 k2 = false /\ key_lt k2 k1 = false.

Lemma lt_true_iff (a b : object) :
  OrderedObject.__lt__ isinstance _key key_lt a b = Value true <->
  isinstance b = true
  /\ exists ka kb, _key a = Value ka /\ _key b = Value kb
                   /\ key_lt ka kb = true.
Proof.
  unfold OrderedObject.__lt__.
  destruct (isinstance b).
  - destruct (_key a) as [ka| |], (_key b) as [kb| |]; split;
      try discriminate;
      try (intros (_ & ? & ? & ? & ? & _); discriminate).
    + intros [= Hlt]. eauto 6.
    + intros (_ & ? & ? & [= ->] & [= ->] & Hlt). by rewrite Hlt.
  - split; [discriminate | intros [? _]; discriminate].
Qed.

(** X11. With keys in a strict total order that [==] goes with, [__lt__]
    is a strict order on instances of [OrderedObject]: never [a < a], and
    [a < b], [b < c] give [a < c]. For two instances of one class whose
    [_key] is defined, exactly one of [a < b], [a == b], [b < a] holds.
    The class plays no part in [__lt__]: for instances of different
    classes with equal keys none of the three holds, so they are unequal
    and unordered. An object that is no instance of [OrderedObject] is
    never greater: [__lt__] answers [False] and does not call [_key]. *)
Theorem X11_lt_is_a_strict_order_by_key (a b c : object) :
  OrderedObject.__lt__ isinstance _key key_lt a a <> Value true
  /\ (OrderedObject.__lt__ isinstance _key key_lt a b = Value true ->
      OrderedObject.__lt__ isinstance _key key_lt b c = Value true ->
      OrderedObject.__lt__ isinstance _key key_lt a c = Value true)
  /\ (isinstance a = true -> isinstance b = true ->
      (exists k, _key a = Value k) -> (exists k, _key b = Value k) ->
      type a = type b ->
      (OrderedObject.__lt__ isinstance _key key_lt a b = Value true
       /\ OrderedObject.__eq__ type _key key_eq a b = Value false
       /\ OrderedObject.__lt__ isinstance _key key_lt b a = Value false)
      \/ (OrderedObject.__lt__ isinstance _key key_lt a b = Value false
          /\ OrderedObject.__eq__ type _key key_eq a b = Value true
          /\ OrderedObject.__lt__ isinstance _key key_lt b a = Value false)
      \/ (OrderedObject.__lt__ isinstance _key key_lt a b = Value false
          /\ OrderedObject.__eq__ type _key key_eq a b = Value false
          /\ OrderedObject.__lt__ isinstance _key key_lt b a = Value true))
  /\ (isinstance a = true -> isinstance b = true ->
      type a <> type b ->
      (exists k, _key a = Value k /\ _key b = Value k) ->
      OrderedObject.__lt__ isinstance _key key_lt a b = Value false
      /\ OrderedObject.__eq__ type _key key_eq a b = Value false
      /\ OrderedObject.__lt__ isinstance _key key_lt b a = Value false)
  /\ (isinstance b = false ->
      OrderedObject.__lt__ isinstance _key key_lt a b = Value false).
Proof.
  assert (Hasym : forall k1 k2, key_lt k1 k2 = true -> key_lt k2 k1 = false).
  { intros k1 k2 Hlt. destruct (key_lt k2 k1) eqn:Hgt; [|reflexivity].
    pose proof (key_lt_trans _ _ _ Hlt Hgt) as Hbad.
    rewrite key_lt_irrefl in Hbad. discriminate. }
  assert (Hne : forall k1 k2, key_lt k1 k2 = true -> key_eq k1 k2 = false).
  { intros k1 k2 Hlt. destruct (key_eq k1 k2) eqn:Heq; [|reflexivity].
    apply key_eq_lt in Heq as [Hbad _]. congruence. }
  assert (Hne' : forall k1 k2, key_lt k2 k1 = true -> key_eq k1 k2 = false).
  { intros k1 k2 Hlt. destruct (key_eq k1 k2) eqn:Heq; [|reflexivity].
    apply key_eq_lt in Heq as [_ Hbad]. congruence. }
  split; [|split; [|split; [|split]]].
  - rewrite lt_true_iff. intros (_ & ka & kb & Ha & Hb & Hlt).
    rewrite Ha in Hb. injection Hb as <-.
    rewrite key_lt_irrefl in Hlt. discriminate.
  - rewrite !lt_true_iff.
    intros (_ & ka & kb & Ha & Hb & Hab) (Hc & kb' & kc & Hb' & Hkc & Hbc).
    split; [exact Hc|]. exists ka, kc. repeat split; try assumption.
    rewrite Hb in Hb'. injection Hb' as <-. eauto.
  - intros Hia Hib [ka Ha] [kb Hb] Ht.
    unfold OrderedObject.__lt__, OrderedObject.__eq__.
    rewrite Hia, Hib, Ha, Hb, Ht, String.eqb_refl.
    destruct (key_lt_total ka kb) as [Hlt|[Heq|Hgt]].
    + left. by rewrite Hlt, (Hne _ _ Hlt), (Hasym _ _ Hlt).
    + right; left. destruct (key_eq_lt _ _ Heq) as [Hlt Hgt].
      by rewrite Hlt, Heq, Hgt.
    + right; right. by rewrite Hgt, (Hne' _ _ Hgt), (Hasym _ _ Hgt).
  - intros Hia Hib Hdiff (k & Ha & Hb).
    unfold OrderedObject.__lt__, OrderedObject.__eq__.
    apply eqb_neq in Hdiff.
    by rewrite Hia, Hib, Ha, Hb, Hdiff, key_lt_irrefl.
  - intros Hib. unfold OrderedObject.__lt__. by rewrite Hib.
Qed.

End OrderedObjectFacts.

Lemma X9_witness :
  OrderedObject.__eq__ example_type example_key example_eq
    ("Version", Int 3) ("Version", Int 3) = Value true
  /\ OrderedObject.__eq__ example_type example_key example_eq
       ("Version", NaN) ("Version", NaN) = Value false
  /\ OrderedObject.__eq__ example_type example_key example_eq
       ("Version", Int 3) ("Package", Int 3) = Value false.
Proof.
  destruct (X9_eq_is_same_class_and_key example_type example_key example_eq
              ("Version", Int 3) ("Package", Int 3) ("Version", Int 3))
    as (_ & Hself & _ & _ & Hother).
  destruct (X9_eq_is_same_class_and_key example_type example_key example_eq
              ("Version", NaN) ("Version", NaN) ("Version", NaN))
    as (_ & Hnan & _).
  split; [|split].
  - apply (Hself (Int 3)). reflexivity.
  - apply (Hnan NaN). reflexivity.
  - apply Hother. discriminate.
Defined.

Lemma X10_witness :
  OrderedObject.__hash__ example_type example_key
    (fun s => Z.of_nat (String.length s)) example_hash ("Version", Int 3)
  = Value 4%Z
  /\ OrderedObject.__hash__ example_type example_key
       (fun s => Z.of_nat (String.length s)) example_hash
       ("Version", PyList [3%Z])
     = TypeError.
Proof.
  destruct (X10_equal_objects_hash_alike example_type example_key example_eq
              (fun s => Z.of_nat (String.length s)) example_hash
              ("Version", Int 3) ("Version", Int 3)) as (Hvalue & _).
  destruct (X10_equal_objects_hash_alike example_type example_key example_eq
              (fun s => Z.of_nat (String.length s)) example_hash
              ("Version", PyList [3%Z]) ("Version", Int 3))
    as (_ & Hlist & _).
  split.
  - apply Hvalue. exists (Int 3), 3%Z. repeat split.
  - apply (Hlist (PyList [3%Z])); reflexivity.
Defined.

Lemma X11_witness :
  OrderedObject.__lt__ example_isinstance example_key Z.ltb
    ("Version", 3%Z) ("Package", 3%Z) = Value false
  /\ OrderedObject.__eq__ example_type example_key Z.eqb
       ("Version", 3%Z) ("Package", 3%Z) = Value false
  /\ OrderedObject.__lt__ example_isinstance example_key Z.ltb
       ("Package", 3%Z) ("Version", 3%Z) = Value false.
Proof.
  destruct (X11_lt_is_a_strict_order_by_key example_type example_isinstance
              example_key Z.eqb Z.ltb Z.ltb_irrefl
              ltac:(intros k1 k2 k3; rewrite !Z.ltb_lt; lia)
              ltac:(intros k1 k2; rewrite !Z.ltb_lt, Z.eqb_eq; lia)
              ltac:(intros k1 k2; rewrite !Z.ltb_ge, Z.eqb_eq; lia)
              ("Version", 3%Z) ("Package", 3%Z) ("Version", 3%Z))
    as (_ & _ & _ & Hmixed & _).
  apply Hmixed.
  - reflexivity.
  - reflexivity.
  - discriminate.
  - exists 3%Z. split; reflexivity.
Defined.

(* ===================================================================== *)
(** ** optimize_order keeps the archives                                 *)
(* ===================================================================== *)

(** Writing [a] over [b] in a list, with [b] put in front, is the list
    with [a] put in front, up to the order. *)
Lemma insert_Permutation {A : Type} (l : list A) (k : nat) (a b : A) :
  l !! k = Some b -> b :: <[k := a]> l ≡ₚ a :: l.
Proof.
  revert k. induction l as [|c l IH]; intros k Hk; [discriminate|].
  destruct k as [|k]; cbn in Hk |- *.
  - injection Hk as ->. apply perm_swap.
  - rewrite perm_swap, (IH k Hk). apply perm_swap.
Qed.

(** Two elements that change places: the same elements as before. *)
Lemma swap_Permutation {A : Type} (x : list A) (i j : nat) (xi xj : A) :
  x !! i = Some xi -> x !! j = Some xj ->
  <[j := xi]> (<[i := xj]> x) ≡ₚ x.
Proof.
  revert i j. induction x as [|c x IH]; intros i j Hi Hj; [discriminate|].
  destruct i as [|i], j as [|j]; cbn in Hi, Hj |- *.
  - injection Hi as ->. reflexivity.
  - injection Hi as ->. by apply insert_Permutation.
  - injection Hj as ->. by apply insert_Permutation.
  - by rewrite (IH i j Hi Hj).
Qed.

Lemma swap_in_range {A : Type} (x : list A) (i j : nat) :
  i < length x -> j < length x ->
  exists y, random.swap i j x = Some y /\ y ≡ₚ x.
Proof.
  intros Hi Hj.
  destruct (lookup_lt_is_Some_2 x i Hi) as [xi Hxi].
  destruct (lookup_lt_is_Some_2 x j Hj) as [xj Hxj].
  unfold random.swap. rewrite Hxi, Hxj.
  eexists. split; [reflexivity|]. by apply swap_Permutation.
Qed.

Lemma shuffle_from_Permutation {A : Type} (draw : nat -> nat) (i : nat) :
  forall x : list A,
    i < length x \/ i = 0 ->
    exists y, random.shuffle_from draw i x = Some y /\ y ≡ₚ x.
Proof.
  induction i as [|i IH]; intros x Hi.
  - exists x. split; reflexivity.
  - destruct Hi as [Hi|]; [|discriminate].
    assert (Hj : draw (S i) mod S (S i) < length x).
    { pose proof (Nat.mod_upper_bound (draw (S i)) (S (S i))). lia. }
    destruct (swap_in_range x (S i) _ Hi Hj) as (x' & Hswap & Hperm).
    cbn [random.shuffle_from]. rewrite Hswap.
    destruct (IH x') as (y & Hy & Hperm').
    { left. rewrite (Permutation_length Hperm). lia. }
    exists y. split; [exact Hy|]. by rewrite Hperm'.
Qed.

(** X12. [optimize_order] never fails with an [IndexError], whatever the
    random numbers, and returns the archives it was given, each as often
    as before, in some order; hence as many as before. A list with no or
    one archive comes back as it is. *)
Theorem X12_optimize_order_permutes {A : Type} (draw : nat -> nat)
    (package_archives : list A) :
  exists shuffled,
    optimize_order draw package_archives = Some shuffled
    /\ shuffled ≡ₚ package_archives
    /\ length shuffled = length package_archives
    /\ (forall archive, archive ∈ shuffled <-> archive ∈ package_archives)
    /\ (length package_archives <= 1 -> shuffled = package_archives).
Proof.
  unfold optimize_order, random.shuffle.
  destruct (shuffle_from_Permutation draw (length package_archives - 1)
              package_archives) as (y & Hy & Hperm).
  { destruct package_archives; [right; reflexivity | left; cbn; lia]. }
  exists y. split; [exact Hy|]. split; [exact Hperm|].
  split; [by apply Permutation_length|]. split.
  - intros archive. by rewrite Hperm.
  - intros Hshort.
    replace (length package_archives - 1) with 0 in Hy by lia.
    by injection Hy as <-.
Qed.

Example optimize_order_three :
  optimize_order (fun i => i - 1) ["a.deb"; "b.deb"; "c.deb"]
  = Some ["c.deb"; "a.deb"; "b.deb"].
Proof. reflexivity. Qed.

Lemma X12_witness :
  optimize_order (fun i => 7 * i) ["only.deb"] = Some ["only.deb"].
Proof.
  destruct (X12_optimize_order_permutes (fun i => 7 * i) ["only.deb"])
    as (shuffled & Hrun & _ & _ & _ & Hshort).
  rewrite Hrun. f_equal. apply Hshort. cbn. lia.
Defined.

(* ===================================================================== *)
(** ** compact: the words stay, the layout goes                          *)
(* ===================================================================== *)

Section Compact.

Variable isspace : ascii -> bool.

Lemma space_free_snoc (cur : string) (c : ascii) :
  space_free isspace cur -> isspace c = false ->
  space_free isspace (cur ++ String c "").
Proof.
  unfold space_free. intros Hcur Hc.
  rewrite list_ascii_of_string_append, Forall_app. split; [exact Hcur|].
  repeat constructor. exact Hc.
Qed.

(** What [split] yields are words. *)
Lemma split_words (text cur : string) :
  space_free isspace cur -> Forall (word isspace) (str.split isspace cur text).
Proof.
  revert cur. induction text as [|c text IH]; intros cur Hcur;
    cbn [str.split].
  - destruct (String.eqb_spec cur ""); repeat constructor; assumption.
  - destruct (isspace c) eqn:Hc.
    + destruct (String.eqb_spec cur "").
      * apply IH. constructor.
      * constructor; [by split|]. apply IH. constructor.
    + apply IH. by apply space_free_snoc.
Qed.

(** Splitting runs through a stretch without whitespace in one go. *)
Lemma split_through (a : string) :
  space_free isspace a ->
  forall cur rest,
    str.split isspace cur (a ++ rest) = str.split isspace (cur ++ a) rest.
Proof.
  induction a as [|c a IH]; intros Hfree cur rest.
  - by rewrite append_nil_r.
  - inversion Hfree as [|? ? Hc Ha]; subst.
    rewrite append_cons. cbn [str.split]. rewrite Hc.
    rewrite (IH Ha), append_assoc. reflexivity.
Qed.

(** The words joined by single spaces split into the same words. *)
Lemma split_join (ws : list string) :
  isspace " " = true ->
  Forall (word isspace) ws ->
  str.split isspace "" (str.join " " ws) = ws.
Proof.
  intros Hspace. unfold str.join.
  induction 1 as [|w ws [Hne Hfree] _ IH]; [reflexivity|].
  destruct ws as [|w' ws].
  - cbn [String.concat]. rewrite <- (append_nil_r w) at 1.
    rewrite split_through by assumption. change ("" ++ w) with w.
    cbn [str.split]. apply eqb_neq in Hne. by rewrite Hne.
  - change (String.concat " " (w :: w' :: ws))
      with (w ++ String " " (String.concat " " (w' :: ws))).
    rewrite split_through by assumption. cbn [str.split].
    rewrite Hspace. apply eqb_neq in Hne.
    change ("" ++ w) with w. by rewrite Hne, IH.
Qed.

(** The characters of the words, one word after the other. *)
Lemma split_solid (text cur : string) :
  space_free isspace cur ->
  concat (map list_ascii_of_string (str.split isspace cur text))
  = (list_ascii_of_string cur ++ solid isspace text)%list.
Proof.
  unfold solid. revert cur.
  induction text as [|c text IH]; intros cur Hcur; cbn [str.split].
  - cbn [list_ascii_of_string filter]. rewrite app_nil_r.
    destruct (String.eqb_spec cur "") as [->|]; [reflexivity|].
    cbn [map concat]. by rewrite app_nil_r.
  - cbn [list_ascii_of_string]. destruct (isspace c) eqn:Hc.
    + rewrite filter_cons_False by congruence.
      destruct (String.eqb_spec cur "") as [->|].
      * rewrite IH by constructor. reflexivity.
      * cbn [map concat]. rewrite IH by constructor. reflexivity.
    + rewrite filter_cons_True by assumption.
      rewrite IH by (by apply space_free_snoc).
      rewrite list_ascii_of_string_append, <- app_assoc. reflexivity.
Qed.

Lemma solid_free (s : string) :
  space_free isspace s -> solid isspace s = list_ascii_of_string s.
Proof.
  unfold solid, space_free.
  induction 1 as [|c l Hc _ IH]; [reflexivity|].
  by rewrite filter_cons_True, IH.
Qed.

Lemma solid_append (a b : string) :
  solid isspace (a ++ b) = (solid isspace a ++ solid isspace b)%list.
Proof.
  unfold solid. by rewrite list_ascii_of_string_append, filter_app.
Qed.

(** Joining with spaces adds nothing but spaces. *)
Lemma join_solid (ws : list string) :
  isspace " " = true ->
  Forall (word isspace) ws ->
  solid isspace (str.join " " ws) = concat (map list_ascii_of_string ws).
Proof.
  intros Hspace. unfold str.join.
  induction 1 as [|w ws [_ Hfree] _ IH]; [reflexivity|].
  destruct ws as [|w' ws].
  - cbn [String.concat map concat]. rewrite app_nil_r. by apply solid_free.
  - change (String.concat " " (w :: w' :: ws))
      with (w ++ String " " (String.concat " " (w' :: ws))).
    rewrite solid_append, solid_free by assumption.
    change (map list_ascii_of_string (w :: w' :: ws))
      with (list_ascii_of_string w :: map list_ascii_of_string (w' :: ws)).
    cbn [concat]. rewrite <- IH. f_equal.
    unfold solid. cbn [list_ascii_of_string].
    by rewrite filter_cons_False by congruence.
Qed.

(** X13. With the space among the whitespace characters, whatever else
    is: the text that [compact] hands to [format] consists of the words
    of the given text, none empty and none with whitespace in it; it
    splits into the same words, so compacting a compacted text changes
    nothing; and its characters other than whitespace are those of the
    given text, in the same order. A text of whitespace only, or an empty
    one, is compacted to the empty text. *)
Theorem X13_compact_keeps_words {KW F : Type} (format : string -> KW -> F)
    (text : string) (kw : KW) :
  isspace " " = true ->
  let words := str.split isspace "" text in
  let compacted := str.join " " words in
  compact isspace format text kw = format compacted kw
  /\ Forall (word isspace) words
  /\ str.split isspace "" compacted = words
  /\ compact isspace format compacted kw = compact isspace format text kw
  /\ solid isspace compacted = solid isspace text
  /\ (solid isspace text = [] -> compacted = "").
Proof.
  intros Hspace words compacted.
  assert (Hwords : Forall (word isspace) words)
    by (apply split_words; constructor).
  assert (Hsame : str.split isspace "" compacted = words)
    by (by apply split_join).
  split; [reflexivity|]. split; [exact Hwords|]. split; [exact Hsame|].
  split; [unfold compact; fold words; fold compacted; by rewrite Hsame|].
  assert (Hsolid : concat (map list_ascii_of_string words) = solid isspace text)
    by (subst words; rewrite split_solid by constructor; reflexivity).
  split.
  - subst compacted. rewrite join_solid by assumption. exact Hsolid.
  - intros Hblank. rewrite Hblank in Hsolid.
    destruct Hwords as [|w ws [Hne _] _]; [reflexivity|].
    cbn [map concat] in Hsolid. apply app_eq_nil in Hsolid as [Hw _].
    destruct w; [contradiction | discriminate].
Qed.

End Compact.

Lemma X13_witness :
  compact ascii_isspace format_plain
    (String "009" "  Failed  to " ++ String "010" " lock  it! ") tt
  = "Failed to lock it!"
  /\ str.split ascii_isspace "" "Failed to lock it!"
     = ["Failed"; "to"; "lock"; "it!"].
Proof.
  destruct (X13_compact_keeps_words ascii_isspace format_plain
              (String "009" "  Failed  to " ++ String "010" " lock  it! ")
              tt eq_refl) as (Hcompact & _ & Hsplit & _).
  split; [exact Hcompact | exact Hsplit].
Defined.

(* ===================================================================== *)
(** ** The home directory                                                *)
(* ===================================================================== *)

(** X14. [find_home_directory] answers with the real path of [HOME]
    exactly when [HOME] is set and its real path is an existing directory;
    the answer is then canonical and the password database is not asked.
    In every other case the answer is the home directory that the
    password database has for the user, as it stands there and whether
    it exists or not. The only exception that leaves the function is the
    [KeyError] of an unknown user, and only when [HOME] was of no use: a
    missing [HOME] or a failed [assert] never shows. *)
Theorem X14_find_home_directory (environ : gmap string string)
    (passwd : gmap N string) (uid : N) (w : world) :
  (forall value,
     environ !! "HOME" = Some value ->
     os.path.isdir (os.path.realpath value w) w = true ->
     find_home_directory environ passwd uid w = Ok (os.path.realpath value w)
     /\ os.path.realpath (os.path.realpath value w) w
        = os.path.realpath value w)
  /\ ((environ !! "HOME" = None
       \/ exists value, environ !! "HOME" = Some value
                        /\ os.path.isdir (os.path.realpath value w) w = false) ->
      find_home_directory environ passwd uid w
      = match passwd !! uid with
        | Some pw_dir => Ok pw_dir
        | None => Exc KeyError
        end)
  /\ (forall e,
        find_home_directory environ passwd uid w = Exc e ->
        e = KeyError /\ passwd !! uid = None
        /\ forall home, home_of_environment environ w <> Ok home).
Proof.
  split; [|split].
  - intros value Hset Hdir.
    unfold find_home_directory, home_of_environment.
    rewrite Hset. cbn zeta. rewrite Hdir.
    split; [reflexivity|].
    destruct (realpath_shape value w) as (comps & Hcomps & ->).
    by apply realpath_of_shape.
  - unfold find_home_directory, home_of_environment, getpwuid_pw_dir.
    intros [Hunset|(value & Hset & Hdir)].
    + by rewrite Hunset.
    + rewrite Hset. cbn zeta. by rewrite Hdir.
  - intros e. unfold find_home_directory, getpwuid_pw_dir.
    destruct (home_of_environment environ w) as [home|e0]; [discriminate|].
    destruct (passwd !! uid); [discriminate|].
    intros [= <-]. repeat split. intros home. discriminate.
Qed.

Lemma X14_witness :
  find_home_directory environ_repo passwd_db 4242 machine = Ok "/data/repo"
  /\ find_home_directory environ_lost passwd_db 1000 machine = Ok "/home/user"
  /\ os.path.isdir "/home/user" machine = false.
Proof.
  destruct (X14_find_home_directory environ_repo passwd_db 4242 machine)
    as (Hhome & _ & _).
  destruct (X14_find_home_directory environ_lost passwd_db 1000 machine)
    as (_ & Hfallback & _).
  split; [|split].
  - apply (Hhome "/data/./repo/"); vm_compute; reflexivity.
  - rewrite Hfallback; [vm_compute; reflexivity|].
    right. exists "/home/gone". split; vm_compute; reflexivity.
  - vm_compute. reflexivity.
Defined.

(* ===================================================================== *)
(** ** The Debian architecture                                           *)
(* ===================================================================== *)

Section Strip.

Variable isspace : ascii -> bool.

Lemma lstrip_head (l : list ascii) (c : ascii) (rest : list ascii) :
  lstrip isspace l = c :: rest -> isspace c = false.
Proof.
  induction l as [|a l IH]; cbn [lstrip]; [discriminate|].
  destruct (isspace a) eqn:Ha; [exact IH|]. by intros [= <- _].
Qed.

Lemma lstrip_suffix (l : list ascii) :
  exists front, l = (front ++ lstrip isspace l)%list.
Proof.
  induction l as [|a l [front IH]]; cbn [lstrip]; [by exists []|].
  destruct (isspace a).
  - exists (a :: front). cbn. by rewrite <- IH.
  - by exists [].
Qed.

Lemma lstrip_id (l : list ascii) :
  (forall c rest, l = c :: rest -> isspace c = false) -> lstrip isspace l = l.
Proof.
  destruct l as [|a l]; [reflexivity|]. intros Hhead. cbn [lstrip].
  by rewrite (Hhead a l eq_refl).
Qed.

Lemma strip_trimmed (s : string) :
  trimmed isspace (list_ascii_of_string (strip isspace s)).
Proof.
  unfold strip. rewrite list_ascii_of_string_of_list_ascii.
  set (inner := lstrip isspace (list_ascii_of_string s)).
  destruct (lstrip_suffix (rev inner)) as [front Hfront].
  split.
  - intros c rest Hrev.
    apply (f_equal (@rev ascii)) in Hrev.
    rewrite rev_involutive in Hrev. cbn [rev] in Hrev.
    rewrite Hrev in Hfront.
    apply (f_equal (@rev ascii)) in Hfront.
    rewrite rev_involutive, !rev_app_distr, rev_involutive in Hfront.
    cbn [rev app] in Hfront.
    subst inner. eapply lstrip_head. exact Hfront.
  - intros c front' Hrev.
    apply (f_equal (@rev ascii)) in Hrev.
    rewrite rev_involutive, rev_app_distr in Hrev. cbn [rev app] in Hrev.
    eapply lstrip_head. exact Hrev.
Qed.

Lemma strip_of_trimmed (s : string) :
  trimmed isspace (list_ascii_of_string s) -> strip isspace s = s.
Proof.
  intros [Hhead Hlast]. unfold strip.
  rewrite (lstrip_id _ Hhead).
  rewrite lstrip_id.
  - by rewrite rev_involutive, string_of_list_ascii_of_string.
  - intros c rest Hrev. apply (Hlast c (rev rest)).
    apply (f_equal (@rev ascii)) in Hrev.
    by rewrite rev_involutive in Hrev.
Qed.

(** X15. On the machines [i686], [x86_64] and [armv6l],
    [find_debian_architecture] answers [i386], [amd64] and [armhf] and
    runs no command, so that it does not fail where [dpkg-architecture]
    is missing. On every other machine it runs
    [dpkg-architecture -qDEB_BUILD_ARCH] once: a failure of the command is
    the failure of the function, and its output comes back without
    whitespace at either end, as a text that [strip] leaves as it is. *)
Theorem X15_find_debian_architecture (execute : list string -> answer string)
    (machine : string) :
  (machine = "i686" \/ machine = "x86_64" \/ machine = "armv6l" ->
   exists architecture,
     find_debian_architecture isspace execute machine = (Ok architecture, [])
     /\ architecture ∈ ["i386"; "amd64"; "armhf"])
  /\ (machine <> "i686" -> machine <> "x86_64" -> machine <> "armv6l" ->
      snd (find_debian_architecture isspace execute machine)
      = [["dpkg-architecture"; "-qDEB_BUILD_ARCH"]]
      /\ (forall e,
            execute ["dpkg-architecture"; "-qDEB_BUILD_ARCH"] = Exc e ->
            fst (find_debian_architecture isspace execute machine) = Exc e)
      /\ (forall output,
            execute ["dpkg-architecture"; "-qDEB_BUILD_ARCH"] = Ok output ->
            fst (find_debian_architecture isspace execute machine)
            = Ok (strip isspace output)
            /\ trimmed isspace (list_ascii_of_string (strip isspace output))
            /\ strip isspace (strip isspace output) = strip isspace output)).
Proof.
  unfold find_debian_architecture. split.
  - intros [-> | [-> | ->]]; cbn; eexists; (split; [reflexivity|]);
      set_solver.
  - intros H1 H2 H3. apply eqb_neq in H1, H2, H3. rewrite H1, H2, H3.
    split; [|split].
    + by destruct (execute _).
    + intros e ->. reflexivity.
    + intros output ->. split; [reflexivity|].
      split; [apply strip_trimmed|]. apply strip_of_trimmed, strip_trimmed.
Qed.

End Strip.

Lemma X15_witness :
  find_debian_architecture ascii_isspace execute_missing "x86_64"
  = (Ok "amd64", [])
  /\ fst (find_debian_architecture ascii_isspace execute_arm64 "aarch64")
     = Ok "arm64"
  /\ fst (find_debian_architecture ascii_isspace execute_missing "aarch64")
     = Exc ExternalCommandFailed.
Proof.
  destruct (X15_find_debian_architecture ascii_isspace execute_missing "x86_64")
    as [Hlisted _].
  destruct (X15_find_debian_architecture ascii_isspace execute_arm64 "aarch64")
    as [_ Hother].
  destruct (X15_find_debian_architecture ascii_isspace execute_missing "aarch64")
    as [_ Hfails].
  split; [|split].
  - destruct Hlisted as (architecture & Hrun & _); [right; left; reflexivity|].
    rewrite Hrun. vm_compute in Hrun. by injection Hrun as <-.
  - destruct Hother as (_ & _ & Hout); try discriminate.
    destruct (Hout _ eq_refl) as (Hrun & _). rewrite Hrun. reflexivity.
  - destruct Hfails as (_ & Hexc & _); try discriminate.
    apply Hexc. reflexivity.
Defined.

(* ===================================================================== *)
(** ** The lock is not reentrant                                         *)
(* ===================================================================== *)

(** X16. A process that holds the lock and asks for it again, through a
    handle with the same lock directory inside its [with] block, does not
    get it. When the inner handle waits, the inner [__enter__] waits for
    the process itself: the statement is never through, whatever the
    fuel, as long as nobody else removes the marker. When the inner handle
    does not wait, the inner statement raises [ResourceLockedException]
    without running its block or its [__exit__]; the exception passes
    through the outer statement, whose [__exit__] removes the marker. *)
Theorem X16_not_reentrant {A : Type} (outer inner : atomic_lock)
    (block : world -> option (result A * world)) (w : world) :
  lock_directory inner = lock_directory outer ->
  fs w !! lock_directory outer = None ->
  faults w !! lock_directory outer = None ->
  (wait inner = true ->
   undisturbed (lock_directory outer) w ->
   forall fuel fuel',
     with_partial fuel outer (with_partial fuel' inner block) w = None)
  /\ (wait inner = false ->
      forall fuel fuel',
        exists w3,
          with_partial (S fuel) outer (with_partial (S fuel') inner block) w
          = Some (Raise (ResourceLockedException
                           (locked_message (pathname inner))), w3)
          /\ fs w3 !! lock_directory outer = None
          /\ trace w3
             = (trace w
                  ++ [EvMakedirs (lock_directory outer) (Return tt);
                      EvMakedirs (lock_directory outer) (Raise (OSError EEXIST));
                      EvRmdir (lock_directory outer) (Return tt)])%list).
Proof.
  intros Hsame Hfs Hfault.
  assert (Hheld : fs (created outer w) !! lock_directory inner = Some Dir).
  { rewrite Hsame. unfold created. cbn [fs log set_fs].
    apply lookup_insert_eq. }
  split.
  - intros Hwait Hquiet [|fuel] fuel'; [reflexivity|].
    unfold with_partial at 1. unfold __enter__.
    rewrite loop_created by assumption. fold (created outer w).
    unfold with_partial, __enter__.
    rewrite loop_stuck; [reflexivity | exact Hwait | rewrite Hheld; eauto |].
    rewrite Hsame. exact Hquiet.
  - intros Hwait fuel fuel'.
    unfold with_partial at 1. unfold __enter__.
    rewrite loop_created by assumption. fold (created outer w).
    unfold with_partial, __enter__.
    rewrite loop_contended; [| rewrite Hheld; eauto | exact Hwait].
    rewrite exit_directory
      by (cbn [fs log]; rewrite <- Hsame; exact Hheld).
    eexists. split; [reflexivity|]. split.
    + cbn [fs log set_fs]. apply lookup_delete_eq.
    + rewrite Hsame. unfold created. cbn [trace log set_fs].
      rewrite <- !app_assoc. reflexivity.
Qed.

Lemma X16_witness :
  with_partial 50 (repo_lock true)
    (with_partial 50 (repo_lock true) (fun v => Some (Return tt, v)))
    machine = None
  /\ exists w3,
       with_partial 1 (repo_lock true)
         (with_partial 1 (repo_lock false) (fun v => Some (Return tt, v)))
         machine
       = Some (Raise (ResourceLockedException
                        "Failed to lock /data/repo for exclusive access!"), w3)
       /\ fs w3 !! repo_marker = None.
Proof.
  assert (Hfree : fs machine !! repo_marker = None) by (vm_compute; reflexivity).
  assert (Hfault : faults machine !! repo_marker = None)
    by (vm_compute; reflexivity).
  split.
  - destruct (X16_not_reentrant (repo_lock true) (repo_lock true)
                (fun v => Some (Return tt, v)) machine eq_refl Hfree Hfault)
      as [Hstuck _].
    apply (Hstuck eq_refl ltac:(constructor) 50 50).
  - destruct (X16_not_reentrant (repo_lock true) (repo_lock false)
                (fun v => Some (Return tt, v)) machine eq_refl Hfree Hfault)
      as [_ Hraise].
    destruct (Hraise eq_refl 0 0) as (w3 & Hrun & Hgone & _).
    exists w3. split; [exact Hrun | exact Hgone].
Defined.

(* ===================================================================== *)
(** ** The construction of a handle                                      *)
(* ===================================================================== *)



(** The fingerprint consists of hexadecimal digits. *)
Lemma sha1_is_hex (text : string) :
  Forall (fun c => is_hex c = true) (list_ascii_of_string (sha1 text)).
Proof.
  unfold sha1, hashlib.sha1_hexdigest, hashlib.digest_words.
  rewrite list_ascii_of_string_of_list_ascii.
  cbn [map concat]. rewrite !Forall_app.
  repeat split; try apply hex32_is_hex. constructor.
Qed.

(** C2. The lock directory of a constructed handle is the temporary
    directory of the process, a separator where the directory does not end
    with one, the SHA-1 fingerprint of the real path of the given path,
    and [.lock]. The real path is the pathname of the handle: absolute,
    made of proper components only and its own real path, so [.], [..]
    and doubled separators in the given path have no effect. The
    fingerprint is forty hexadecimal digits, those of SHA-1 (the
    fingerprint of [abc] is the one of the standard). Hence two handles,
    of whatever processes, for paths with the same real path have the
    same lock directory, where [tempfile.gettempdir] names the same
    directory for both. *)
Theorem C2_marker_path_determined (pathname0 : string) (wait0 : bool)
    (w : world) (self : atomic_lock) :
  __init__ pathname0 wait0 w = Return self ->
  pathname self = os.path.realpath pathname0 w
  /\ (exists comps,
        Forall component comps
        /\ pathname self = "/" ++ String.concat "/" comps)
  /\ (forall w', os.path.realpath (pathname self) w' = pathname self)
  /\ lock_directory self
     = tempfile.gettempdir w ++ joint (tempfile.gettempdir w)
       ++ sha1 (os.path.realpath pathname0 w) ++ ".lock"
  /\ String.length (sha1 (pathname self)) = 40
  /\ Forall (fun c => is_hex c = true)
            (list_ascii_of_string (sha1 (pathname self)))
  /\ sha1 "abc" = "a9993e364706816aba3e25717850c26c9cd0d89d"
  /\ os.path.realpath "/data/./repo/../repo//" w = "/data/repo"
  /\ (forall pathname1 wait1 w1 other,
        __init__ pathname1 wait1 w1 = Return other ->
        os.path.realpath pathname1 w1 = os.path.realpath pathname0 w ->
        tempfile.gettempdir w1 = tempfile.gettempdir w ->
        lock_directory other = lock_directory self).
Proof.
  intros Hinit. apply init_returns in Hinit as (_ & _ & ->).
  cbn [pathname lock_directory].
  destruct (realpath_shape pathname0 w) as (comps & Hcomps & Hshape).
  split; [reflexivity|]. split; [eauto|]. split.
  { intros w'. rewrite Hshape. by apply realpath_of_shape. }
  split; [apply join_relative, sha1_not_absolute|].
  split; [apply sha1_length|]. split; [apply sha1_is_hex|].
  split; [vm_compute; reflexivity|]. split; [vm_compute; reflexivity|].
  intros pathname1 wait1 w1 other Hother Hpath Htmp.
  apply init_returns in Hother as (_ & _ & ->).
  cbn [lock_directory]. by rewrite Hpath, Htmp.
Qed.

Lemma C2_witness :
  __init__ "/data/./repo/../repo//" true machine = Return (repo_lock true)
  /\ lock_directory (repo_lock true)
     = "/tmp" ++ "/" ++ sha1 "/data/repo" ++ ".lock"
  /\ forall other,
       __init__ "." false machine_elsewhere = Return other ->
       lock_directory other = lock_directory (repo_lock true).
Proof.
  assert (Hinit : __init__ "/data/./repo/../repo//" true machine
                  = Return (repo_lock true))
    by (vm_compute; reflexivity).
  destruct (C2_marker_path_determined _ _ _ _ Hinit)
    as (_ & _ & _ & Hformula & _ & _ & _ & _ & Hsame).
  split; [exact Hinit|]. split.
  - rewrite Hformula. vm_compute. reflexivity.
  - intros other Hother.
    apply (Hsame "." false machine_elsewhere other Hother);
      vm_compute; reflexivity.
Defined.

(** C2, where it fails: two processes with different temporary
    directories construct handles for the same real path and have
    different lock directories, so neither would find the marker of the
    other. *)
Lemma C2_counterexample :
  exists self other,
    __init__ "/data/repo" true machine = Return self
    /\ __init__ "/data/repo" true machine_other_tmpdir = Return other
    /\ pathname self = pathname other
    /\ os.path.realpath "/data/repo" machine
       = os.path.realpath "/data/repo" machine_other_tmpdir
    /\ lock_directory self
       = "/tmp/6877d6a4e60b6e8c0b91c42b2e82c0d69d03bd4a.lock"
    /\ lock_directory other
       = "/var/tmp/6877d6a4e60b6e8c0b91c42b2e82c0d69d03bd4a.lock"
    /\ lock_directory self <> lock_directory other.
Proof.
  eexists _, _. split; [vm_compute; reflexivity|].
  split; [vm_compute; reflexivity|].
  cbn [pathname lock_directory]. repeat split; discriminate.
Qed.
